(** * MongoFrames factory: assembling, finishing and populating fake documents

    A shallow embedding of [mongoframes/factory/__init__.py] (the [Factory]
    class) and of the maker primitives exercised by
    [tests/factory/makers/test_makers.py].

    Python calls are modelled by explicit state passing.  A call either
    returns a value or raises; in both cases the effects performed up to
    that point stay in the state, as they do in Python. *)

From Stdlib Require Import String Ascii ZArith List Bool Lia Arith.
From Stdlib Require Import DecimalString.
Import ListNotations.

Set Implicit Arguments.

(** ** Outcome of a call *)

Inductive Result (E A : Type) : Type :=
| Returned (a : A)
| Raised (e : E).

Arguments Returned {E A} a.
Arguments Raised {E A} e.

Definition exn_of {E A} (r : Result E A) : option E :=
  match r with Returned _ => None | Raised e => Some e end.

(** ** The factory and its collaborators *)

Module Factory.

(** Everything [Factory] talks to lives outside the class: the blueprint
    (reset / assemble / finish / frame_cls), the quota ([int(quota)]), the
    frame class ([_ensure_frames], [insert_many]) and blinker's signals.
    Their behaviour is a parameter; [Env] is whatever state they own. *)
Record Collaborators : Type := {
  Blueprint : Type;
  Quota : Type;
  Preset : Type;
  Document : Type;
  Frame : Type;
  FrameCls : Type;
  Exn : Type;
  Env : Type;
  blueprint_reset : Blueprint -> Env -> Result Exn unit * Env;
  blueprint_assemble :
    Blueprint -> list Preset -> Env -> Result Exn Document * Env;
  blueprint_finish :
    Blueprint -> Document -> list Preset -> Env -> Result Exn Document * Env;
  frame_cls : Blueprint -> FrameCls;
  quota_int : Quota -> Env -> Result Exn Z * Env;
  _ensure_frames :
    FrameCls -> list Document -> Env -> Result Exn (list Frame) * Env;
  insert_many :
    FrameCls -> list Frame -> Env -> Result Exn (list Frame) * Env;
  signal_send :
    string -> FrameCls -> list Frame -> Env -> Result Exn unit * Env
}.

Section Model.
Variable C : Collaborators.

(** One entry per call made on a collaborator, with its outcome. *)
Inductive Event : Type :=
| EvReset (blueprint : Blueprint C) (r : Result (Exn C) unit)
| EvInt (quota : Quota C) (r : Result (Exn C) Z)
| EvAssemble (blueprint : Blueprint C) (presets : list (Preset C))
    (r : Result (Exn C) (Document C))
| EvFinish (blueprint : Blueprint C) (document : Document C)
    (presets : list (Preset C)) (r : Result (Exn C) (Document C))
| EvEnsureFrames (cls : FrameCls C) (documents : list (Document C))
    (r : Result (Exn C) (list (Frame C)))
| EvSend (name : string) (sender : FrameCls C) (frames : list (Frame C))
    (r : Result (Exn C) unit)
| EvInsertMany (cls : FrameCls C) (frames : list (Frame C))
    (r : Result (Exn C) (list (Frame C))).

Record World : Type := {
  env : Env C;
  trace : list Event
}.

(** Computations: read and update the world, return or raise. *)
Definition M (A : Type) : Type := World -> Result (Exn C) A * World.

Definition ret {A} (a : A) : M A := fun w => (Returned a, w).

Definition bind {A B} (m : M A) (k : A -> M B) : M B :=
  fun w =>
    match m w with
    | (Returned a, w') => k a w'
    | (Raised e, w') => (Raised e, w')
    end.

(** A call on a collaborator: run it on the environment, log it. *)
Definition invoke {A} (f : Env C -> Result (Exn C) A * Env C)
    (ev : Result (Exn C) A -> Event) : M A :=
  fun w =>
    let (r, e') := f (env w) in
    (r, {| env := e'; trace := trace w ++ [ev r] |}).

(** [for x in xs: acc = body(acc, x)] *)
Fixpoint for_each {X A} (xs : list X) (body : A -> X -> M A) (acc : A)
    : M A :=
  match xs with
  | [] => ret acc
  | x :: xs' => bind (body acc x) (for_each xs' body)
  end.

(** [range(lo, hi)] *)
Definition range (lo hi : Z) : list Z :=
  map (fun i => (lo + Z.of_nat i)%Z) (seq 0 (Z.to_nat (hi - lo))).

(** [class Factory]: the only attribute is [_presets]. *)
Record Factory : Type := { _presets : list (Preset C) }.

(** [__init__(self, presets=None)]: [self._presets = presets or []] *)
Definition __init__ (presets : option (list (Preset C))) : Factory :=
  {| _presets := match presets with
                 | Some (p :: ps) => p :: ps
                 | _ => []
                 end |}.

Definition presets (self : Factory) : list (Preset C) := _presets self.

(** [Factory.assemble(self, blueprint, quota)] *)
Definition assemble (self : Factory) (blueprint : Blueprint C)
    (quota : Quota C) : M (list (Document C)) :=
  bind (invoke (blueprint_reset C blueprint) (EvReset blueprint)) (fun _ =>
  let documents := [] in
  bind (invoke (quota_int C quota) (EvInt quota)) (fun n =>
  for_each (range 0 n)
    (fun documents _ =>
       bind (invoke (blueprint_assemble C blueprint (presets self))
               (EvAssemble blueprint (presets self)))
            (fun d => ret (documents ++ [d])))
    documents)).

(** [Factory.finish(self, blueprint, documents)] *)
Definition finish (self : Factory) (blueprint : Blueprint C)
    (documents : list (Document C)) : M (list (Document C)) :=
  bind (invoke (blueprint_reset C blueprint) (EvReset blueprint)) (fun _ =>
  let finished := [] in
  for_each documents
    (fun finished document =>
       bind (invoke (blueprint_finish C blueprint document (presets self))
               (EvFinish blueprint document (presets self)))
            (fun d => ret (finished ++ [d])))
    finished).

(** [Factory.populate(self, blueprint, documents)].  The body has no
    [return] statement, so a call that completes evaluates to Python's
    [None]; the result type leaves room for the frames that
    [insert_many] hands back, which the body drops. *)
Definition populate (self : Factory) (blueprint : Blueprint C)
    (documents : list (Document C)) : M (option (list (Frame C))) :=
  bind (finish self blueprint documents) (fun documents =>
  bind (invoke (_ensure_frames C (frame_cls C blueprint) documents)
          (EvEnsureFrames (frame_cls C blueprint) documents)) (fun frames =>
  bind (invoke (signal_send C "factory_insert" (frame_cls C blueprint) frames)
          (EvSend "factory_insert" (frame_cls C blueprint) frames)) (fun _ =>
  bind (invoke (insert_many C (frame_cls C blueprint) frames)
          (EvInsertMany (frame_cls C blueprint) frames)) (fun frames =>
  bind (invoke (signal_send C "factory_inserted" (frame_cls C blueprint) frames)
          (EvSend "factory_inserted" (frame_cls C blueprint) frames)) (fun _ =>
  ret None))))).

(** *** Reading a trace *)

Definition is_reset (e : Event) : bool :=
  match e with EvReset _ _ => true | _ => false end.

Definition is_assemble (e : Event) : bool :=
  match e with EvAssemble _ _ _ => true | _ => false end.

(** Calls that touch the frame class, the database or the signals. *)
Definition is_storage (e : Event) : bool :=
  match e with
  | EvEnsureFrames _ _ _ | EvSend _ _ _ _ | EvInsertMany _ _ _ => true
  | _ => false
  end.

Definition is_send (name : string) (e : Event) : bool :=
  match e with EvSend n _ _ _ => String.eqb n name | _ => false end.

Definition is_insert (e : Event) : bool :=
  match e with EvInsertMany _ _ _ => true | _ => false end.

(** The exception a logged call ended with, if it raised. *)
Definition event_exn (e : Event) : option (Exn C) :=
  match e with
  | EvReset _ r => exn_of r
  | EvInt _ r => exn_of r
  | EvAssemble _ _ r => exn_of r
  | EvFinish _ _ _ r => exn_of r
  | EvEnsureFrames _ _ r => exn_of r
  | EvSend _ _ _ r => exn_of r
  | EvInsertMany _ _ r => exn_of r
  end.

(** A run that raised did so in the call it logged last. *)
Definition propagated (e : Exn C) (t : list Event) : Prop :=
  exists t0 ev, t = t0 ++ [ev] /\ event_exn ev = Some e.

Definition count (p : Event -> bool) (t : list Event) : nat :=
  length (filter p t).

(** The log of assemble calls that returned [docs], in order. *)
Definition assembled_events (self : Factory) (bp : Blueprint C)
    (docs : list (Document C)) : list Event :=
  map (fun d => EvAssemble bp (presets self) (Returned d)) docs.

(** The log of finish calls that took [docs] to [out], pairwise and in
    order. *)
Definition finished_events (self : Factory) (bp : Blueprint C)
    (docs out : list (Document C)) : list Event :=
  map (fun df => EvFinish bp (fst df) (presets self) (Returned (snd df)))
    (combine docs out).
End Model.

Arguments EvReset {C} blueprint r.
Arguments EvInt {C} quota r.
Arguments EvAssemble {C} blueprint presets r.
Arguments EvFinish {C} blueprint document presets r.
Arguments EvEnsureFrames {C} cls documents r.
Arguments EvSend {C} name sender frames r.
Arguments EvInsertMany {C} cls frames r.
Arguments ret {C A} a w.

End Factory.

(** ** Python values *)

(** The JSON-like values documents are made of. *)
#[warnings="-register-all"]
Inductive PyVal : Type :=
| PyNone
| PyInt (z : Z)
| PyStr (s : string)
| PyList (xs : list PyVal)
| PyDict (items : list (string * PyVal)).

Inductive PyExn : Type :=
| AssertionError
| IndexError
| KeyError
| TypeError.

Definition PyResult (A : Type) : Type := Result PyExn A.

(** Structural equality on values. *)
Fixpoint pyval_eqb (a b : PyVal) {struct a} : bool :=
  match a, b with
  | PyNone, PyNone => true
  | PyInt x, PyInt y => Z.eqb x y
  | PyStr s, PyStr t => String.eqb s t
  | PyList xs, PyList ys =>
      (fix all2 (xs ys : list PyVal) {struct xs} : bool :=
         match xs, ys with
         | [], [] => true
         | x :: xs', y :: ys' => pyval_eqb x y && all2 xs' ys'
         | _, _ => false
         end) xs ys
  | PyDict xs, PyDict ys =>
      (fix all2 (xs ys : list (string * PyVal)) {struct xs} : bool :=
         match xs, ys with
         | [], [] => true
         | (k, x) :: xs', (l, y) :: ys' =>
             String.eqb k l && pyval_eqb x y && all2 xs' ys'
         | _, _ => false
         end) xs ys
  | _, _ => false
  end.

(** [v in s] for a set of values kept as a list. *)
Definition mem (v : PyVal) (s : list PyVal) : bool :=
  existsb (pyval_eqb v) s.

(** [d[k]] and [d[k] = v] on a dict kept in insertion order. *)
Fixpoint dict_get (k : string) (items : list (string * PyVal))
    : option PyVal :=
  match items with
  | [] => None
  | (k', v) :: rest => if String.eqb k k' then Some v else dict_get k rest
  end.

Fixpoint dict_set (k : string) (v : PyVal) (items : list (string * PyVal))
    : list (string * PyVal) :=
  match items with
  | [] => [(k, v)]
  | (k', v') :: rest =>
      if String.eqb k k' then (k', v) :: rest
      else (k', v') :: dict_set k v rest
  end.

(** [xs[i]], with Python's negative indices. *)
Definition list_get {A} (xs : list A) (i : Z) : option A :=
  if (i <? 0)%Z then
    if (i + Z.of_nat (length xs) <? 0)%Z then None
    else nth_error xs (Z.to_nat (i + Z.of_nat (length xs)))
  else nth_error xs (Z.to_nat i).

(** [template.format(index=i)]: every [{index}] becomes [i] in decimal. *)
Fixpoint format_index_from (skip : nat) (template : string) (digits : string)
    : string :=
  match template with
  | EmptyString => EmptyString
  | String c rest =>
      match skip with
      | S k => format_index_from k rest digits
      | 0 =>
          if prefix "{index}" template
          then digits ++ format_index_from 6 rest digits
          else String c (format_index_from 0 rest digits)
      end
  end.

Definition format_index (template : string) (i : Z) : string :=
  format_index_from 0 template (NilZero.string_of_int (Z.to_int i)).

(** ** Makers *)

(** Modelled from the spec: the [mongoframes.factory.makers] package
    ([Maker] and its variants) and [mongoframes.factory.quotas] are not
    among the sources; only their tests are.  What follows is the maker
    contract of the spec (section 4.2, 4.3) with the behaviour the tests
    pin down.

    A maker object is the base-class attribute [_document] together with
    the attributes [T] of its variant.  A variant reads [self.document]
    but only [target] writes it. *)
Record MakerObj (T : Type) : Type := {
  _document : PyVal;
  self : T
}.

Arguments _document {T} m.
Arguments self {T} m.

(** Modelled from the spec: the two resolution stages and the reset hook
    every variant implements; [_assemble] and [_finish] are the names the
    tests call.  The first argument is [self.document]. *)
Class Maker (T : Type) : Type := {
  _assemble : PyVal -> T -> PyResult PyVal * T;
  _finish : PyVal -> PyVal -> T -> PyResult PyVal * T;
  reset : T -> T
}.

(** The calls the tests make on a maker. *)
Inductive call : Type :=
| CallAssemble
| CallFinish (value : PyVal)
| CallReset.

Section MakerBase.
Context {T : Type}.

(** Modelled from the spec: [Maker.__init__], which is not among the
    sources: a new maker has no target document. *)
Definition new (s : T) : MakerObj T := {| _document := PyNone; self := s |}.

(** Modelled from the spec: the read-only property [document]. *)
Definition document (m : MakerObj T) : PyVal := _document m.

Definition set_document (doc : PyVal) (m : MakerObj T) : MakerObj T :=
  {| _document := doc; self := self m |}.

(** Modelled from the spec: the scoped [with maker.target(document):
    body]: [self.document] is the given document for the duration of the
    block and is [None] again on exit, whether the block returned or
    raised.  [test_maker] exercises the exit of a block that returns; the
    exit of a block that raises is the spec's wording alone. *)
Definition target {A} (m : MakerObj T) (doc : PyVal)
    (body : MakerObj T -> PyResult A * MakerObj T)
    : PyResult A * MakerObj T :=
  let (r, m') := body (set_document doc m) in
  (r, set_document PyNone m').

Context `{Maker T}.

(** Modelled from the spec: the calls [maker._assemble()],
    [maker._finish(value)] and [maker.reset()] on a maker object; they
    leave [_document] alone. *)
Definition call_assemble (m : MakerObj T) : PyResult PyVal * MakerObj T :=
  let (r, s') := _assemble (document m) (self m) in
  (r, {| _document := _document m; self := s' |}).

Definition call_finish (value : PyVal) (m : MakerObj T)
    : PyResult PyVal * MakerObj T :=
  let (r, s') := _finish (document m) value (self m) in
  (r, {| _document := _document m; self := s' |}).

Definition call_reset (m : MakerObj T) : MakerObj T :=
  {| _document := _document m; self := reset (self m) |}.

(** [k] consecutive [_assemble()] calls; the values obtained before the
    first raise, the exception if there was one, and the maker after. *)
Fixpoint assemble_n (k : nat) (m : MakerObj T)
    : list PyVal * option PyExn * MakerObj T :=
  match k with
  | 0 => ([], None, m)
  | S k' =>
      match call_assemble m with
      | (Returned v, m') =>
          let '(vs, e, m'') := assemble_n k' m' in (v :: vs, e, m'')
      | (Raised e, m') => ([], Some e, m')
      end
  end.

(** [[maker._assemble() for i in range(0, k)]] *)
Definition assemble_list (k : nat) (m : MakerObj T)
    : PyResult (list PyVal) * MakerObj T :=
  match assemble_n k m with
  | (vs, None, m') => (Returned vs, m')
  | (_, Some e, m') => (Raised e, m')
  end.



(** One call a caller makes on a maker object, the result it gets, and the
    record of a series of calls, each made whatever the ones before it
    returned or raised.  [reset()] returns [None]. *)
Definition do_call (c : call) (m : MakerObj T) : PyResult PyVal * MakerObj T :=
  match c with
  | CallAssemble => call_assemble m
  | CallFinish value => call_finish value m
  | CallReset => (Returned PyNone, call_reset m)
  end.

Fixpoint run_calls (cs : list call) (m : MakerObj T)
    : list (call * PyResult PyVal) * MakerObj T :=
  match cs with
  | [] => ([], m)
  | c :: cs' =>
      let (r, m') := do_call c m in
      let (h, m'') := run_calls cs' m' in
      ((c, r) :: h, m'')
  end.

(** The maker as [j] successive calls [c] leave it. *)
Fixpoint after_attempts (c : call) (j : nat) (m : MakerObj T) : MakerObj T :=
  match j with
  | 0 => m
  | S j' => after_attempts c j' (snd (do_call c m))
  end.

(** [maker._finish(maker._assemble())], the way the tests draw a finished
    value, and [k] such draws in a row, stopping at the first raise. *)
Definition produce (m : MakerObj T) : PyResult PyVal * MakerObj T :=
  match call_assemble m with
  | (Returned a, m') => call_finish a m'
  | (Raised e, m') => (Raised e, m')
  end.

Fixpoint produce_n (k : nat) (m : MakerObj T)
    : list PyVal * option PyExn * MakerObj T :=
  match k with
  | 0 => ([], None, m)
  | S k' =>
      match produce m with
      | (Returned v, m') =>
          let '(vs, e, m'') := produce_n k' m' in (v :: vs, e, m'')
      | (Raised e, m') => ([], Some e, m')
      end
  end.

(** [[maker._finish(v) for v in values]] *)
Fixpoint finish_list (values : list PyVal) (m : MakerObj T)
    : PyResult (list PyVal) * MakerObj T :=
  match values with
  | [] => (Returned [], m)
  | v :: rest =>
      match call_finish v m with
      | (Returned x, m') =>
          match finish_list rest m' with
          | (Returned xs, m'') => (Returned (x :: xs), m'')
          | (Raised e, m'') => (Raised e, m'')
          end
      | (Raised e, m') => (Raised e, m')
      end
  end.
End MakerBase.

(** *** Static *)

(** Modelled from the spec: [Static(value, assembler=True)] hands out the
    configured value; as a finisher-only maker it assembles [None]; finishing
    yields the configured value whatever the input. *)
Module Static.
(** Modelled from the spec: the attributes of a [Static] maker, which is
    not among the sources: the configured value and the stage flag. *)
Record t : Type := { value : PyVal; assembler : bool }.

(** Modelled from the spec: [Static._assemble], [Static._finish] and the
    default [reset], which are not among the sources. *)
#[global] Instance maker : Maker t := {|
  _assemble := fun _ s =>
    (Returned (if assembler s then value s else PyNone), s);
  _finish := fun _ _ s => (Returned (value s), s);
  reset := fun s => s
|}.

Definition make (v : PyVal) (assembler : bool) : MakerObj t :=
  new {| value := v; assembler := assembler |}.
End Static.

(** *** Lambda *)

(** Modelled from the spec: [Lambda(func, assembler=True, finisher=False)]
    calls the user function with the current document when assembling and
    with the document and the assembled value when finishing.  A stage it
    is not configured for assembles [None] and, as [test_lambda] shows,
    finishes to the value it is given.  The second argument of [func] is
    absent in the one-argument call. *)
Module Lambda.
(** Modelled from the spec: the attributes of a [Lambda] maker, which is
    not among the sources: the user function and the two stage flags. *)
Record t : Type := {
  func : PyVal -> option PyVal -> PyResult PyVal;
  assembler : bool;
  finisher : bool
}.

(** Modelled from the spec: [Lambda._assemble], [Lambda._finish] and the
    default [reset], which are not among the sources. *)
#[global] Instance maker : Maker t := {|
  _assemble := fun doc s =>
    if assembler s then (func s doc None, s) else (Returned PyNone, s);
  _finish := fun doc v s =>
    if finisher s then (func s doc (Some v), s) else (Returned v, s);
  reset := fun s => s
|}.

Definition make (f : PyVal -> option PyVal -> PyResult PyVal)
    (assembler finisher : bool) : MakerObj t :=
  new {| func := f; assembler := assembler; finisher := finisher |}.

(** [lambda doc: v] *)
Definition const1 (v : PyVal) : PyVal -> option PyVal -> PyResult PyVal :=
  fun _ extra =>
    match extra with
    | None => Returned v
    | Some _ => Raised TypeError
    end.
End Lambda.

(** *** Faker *)

(** Modelled from the spec: [Faker(provider, locale, assembler=True)] calls
    a named fake-data provider with the configured locale, independently on
    every call and without any promise of repeating itself.  The provider's
    choice is an oracle from the number of draws made so far; the draw count
    belongs to the provider, and [reset] (the default no-op) does not rewind
    it.  As in [test_faker], the maker draws when assembling, or, built with
    [assembler=False], assembles [None] and draws when finishing. *)
Module Faker.
(** Modelled from the spec: the attributes of a [Faker] maker, which is not
    among the sources, together with the provider it calls. *)
Record t : Type := {
  provider : string;
  locale : string;
  assembler : bool;
  oracle : string -> string -> nat -> PyVal;
  draws : nat
}.

Definition draw (s : t) : PyResult PyVal * t :=
  (Returned (oracle s (provider s) (locale s) (draws s)),
   {| provider := provider s; locale := locale s;
      assembler := assembler s; oracle := oracle s;
      draws := S (draws s) |}).

(** Modelled from the spec: [Faker._assemble], [Faker._finish] and the
    default [reset], which are not among the sources. *)
#[global] Instance maker : Maker t := {|
  _assemble := fun _ s =>
    if assembler s then draw s else (Returned PyNone, s);
  _finish := fun _ v s =>
    if assembler s then (Returned v, s) else draw s;
  reset := fun s => s
|}.

Definition make (oracle : string -> string -> nat -> PyVal)
    (provider locale : string) (assembler : bool) : MakerObj t :=
  new {| provider := provider; locale := locale; assembler := assembler;
         oracle := oracle; draws := 0 |}.
End Faker.

(** *** Cycle *)

(** Modelled from the spec: [Cycle(items)] assembles the next index into a
    fixed pool, wrapping around; the cursor survives across calls and
    [reset] puts it back to 0; finishing maps the index back to the pool.
    As [test_list_of] shows, the assembled value is the two-element list
    [[index, None]]. *)
Module Cycle.
(** Modelled from the spec: the attributes of a [Cycle] maker, which is not
    among the sources: the pool and the cursor into it. *)
Record t : Type := { items : list PyVal; item_index : nat }.

(** What assembling at cursor [index] returns. *)
Definition assembled (index : nat) : PyVal :=
  PyList [PyInt (Z.of_nat index); PyNone].

(** Modelled from the spec: [Cycle._assemble], [Cycle._finish] and
    [Cycle.reset], which are not among the sources. *)
#[global] Instance maker : Maker t := {|
  _assemble := fun _ s =>
    match nth_error (items s) (item_index s) with
    | None => (Raised IndexError, s)
    | Some _ =>
        (Returned (assembled (item_index s)),
         {| items := items s;
            item_index :=
              if S (item_index s) <? length (items s)
              then S (item_index s) else 0 |})
    end;
  _finish := fun _ v s =>
    match v with
    | PyList (PyInt i :: _) =>
        match list_get (items s) i with
        | Some item => (Returned item, s)
        | None => (Raised IndexError, s)
        end
    | _ => (Raised TypeError, s)
    end;
  reset := fun s => {| items := items s; item_index := 0 |}
|}.

Definition make (items : list PyVal) : MakerObj t :=
  new {| items := items; item_index := 0 |}.
End Cycle.

(** *** Sequence *)

(** Modelled from the spec: [Sequence(template)] is one of the generators
    with memory: each assembled value is the template with [{index}]
    replaced by a running number, and [reset] restarts the numbering.  The
    first number is a construction parameter. *)
Module Sequence.
(** Modelled from the spec: the attributes of a [Sequence] maker, which is
    not among the sources: the template, the first number and the next. *)
Record t : Type := { template : string; start_from : Z; index : Z }.

(** Modelled from the spec: [Sequence._assemble], [Sequence._finish] and
    [Sequence.reset], which are not among the sources. *)
#[global] Instance maker : Maker t := {|
  _assemble := fun _ s =>
    (Returned (PyStr (format_index (template s) (index s))),
     {| template := template s; start_from := start_from s;
        index := (index s + 1)%Z |});
  _finish := fun _ v s => (Returned v, s);
  reset := fun s =>
    {| template := template s; start_from := start_from s;
       index := start_from s |}
|}.

Definition make (template : string) (start_from : Z) : MakerObj t :=
  new {| template := template; start_from := start_from;
         index := start_from |}.
End Sequence.

(** *** Quota *)

(** Modelled from the spec: [Quota(count)] holds a target count and a
    cursor; iterating it yields [count] times, counting the cursor up from
    zero; [reset] zeroes the cursor and keeps the target. *)
Module Quota.
(** Modelled from the spec: the attributes of a [Quota], which is not among
    the sources: the target count and the cursor. *)
Record t : Type := { count : Z; cursor : Z }.

Definition make (count : Z) : t := {| count := count; cursor := 0 |}.

Definition reset (q : t) : t := {| count := count q; cursor := 0 |}.

(** Modelled from the spec: iterating a [Quota], which is not among the
    sources: the number of times the iteration yields, and the quota after
    it. *)
Definition iterate (q : t) : nat * t :=
  (Z.to_nat (count q), {| count := count q; cursor := Z.max 0 (count q) |}).
End Quota.

(** *** ListOf *)

(** Modelled from the spec: [ListOf(maker, quota, reset_maker=False)]
    invokes the wrapped maker once per item of the quota and collects the
    values in order; with [reset_maker] it resets the wrapped maker before
    each outer call; finishing maps the wrapped maker's finish over the
    collected elements.  The wrapped maker sees the enclosing document
    through [target]. *)
Module ListOf.
Section Wrapped.
Context {T : Type} `{Maker T}.

(** Modelled from the spec: the attributes of a [ListOf] maker, which is
    not among the sources. *)
Record t : Type := {
  maker : MakerObj T;
  quota : Quota.t;
  reset_maker : bool
}.

(** Modelled from the spec: [ListOf._assemble], which is not among the
    sources. *)
Definition assemble (doc : PyVal) (s : t) : PyResult PyVal * t :=
  let (quantity, quota') := Quota.iterate (quota s) in
  let inner := if reset_maker s then call_reset (maker s) else maker s in
  let (r, inner') := target inner doc (assemble_list quantity) in
  (match r with
   | Returned vs => Returned (PyList vs)
   | Raised e => Raised e
   end,
   {| maker := inner'; quota := quota'; reset_maker := reset_maker s |}).

(** Modelled from the spec: [ListOf._finish], which is not among the
    sources. *)
Definition finish (doc value : PyVal) (s : t) : PyResult PyVal * t :=
  match value with
  | PyList vs =>
      let (r, inner') := target (maker s) doc (finish_list vs) in
      (match r with
       | Returned xs => Returned (PyList xs)
       | Raised e => Raised e
       end,
       {| maker := inner'; quota := quota s;
          reset_maker := reset_maker s |})
  | _ => (Raised TypeError, s)
  end.

(** Modelled from the spec: [ListOf] as a maker, with the default
    [reset]. *)
#[global] Instance listof_maker : Maker t := {|
  _assemble := assemble;
  _finish := finish;
  reset := fun s => s
|}.

Definition make (m : MakerObj T) (q : Quota.t) (reset_maker : bool)
    : MakerObj t :=
  new {| maker := m; quota := q; reset_maker := reset_maker |}.
End Wrapped.
Arguments t T : clear implicits.
End ListOf.

(** *** DictOf *)

(** Modelled from the spec: [DictOf(table)]: each key holds either a
    literal JSON value or a wrapped maker.  Assembling leaves [None] under a
    literal key and the wrapped maker's assembled value under the others;
    finishing puts the literal under a literal key and finishes
    [value[key]] with the wrapped maker under the others.  Keys are visited
    in the table's order. *)
Module DictOf.
Section Wrapped.
Context {T : Type} `{Maker T}.

(** Modelled from the spec: what a key of a [DictOf] table holds. *)
Inductive entry : Type :=
| Literal (v : PyVal)
| Wrapped (m : MakerObj T).

(** Modelled from the spec: the attributes of a [DictOf] maker, which is
    not among the sources. *)
Record t : Type := { table : list (string * entry) }.

(** Modelled from the spec: the loop of [DictOf._assemble]: [out] is the dict built so far; the
    result carries the table with the wrapped makers as the calls left
    them. *)
Fixpoint assemble_items (doc : PyVal) (todo : list (string * entry))
    (out : list (string * PyVal))
    : PyResult (list (string * PyVal)) * list (string * entry) :=
  match todo with
  | [] => (Returned out, [])
  | (k, Literal v) :: rest =>
      let (r, rest') := assemble_items doc rest (dict_set k PyNone out) in
      (r, (k, Literal v) :: rest')
  | (k, Wrapped m) :: rest =>
      match target m doc call_assemble with
      | (Returned a, m') =>
          let (r, rest') := assemble_items doc rest (dict_set k a out) in
          (r, (k, Wrapped m') :: rest')
      | (Raised e, m') => (Raised e, (k, Wrapped m') :: rest)
      end
  end.

(** Modelled from the spec: the loop of [DictOf._finish], which is not
    among the sources. *)
Fixpoint finish_items (doc : PyVal) (value : list (string * PyVal))
    (todo : list (string * entry)) (out : list (string * PyVal))
    : PyResult (list (string * PyVal)) * list (string * entry) :=
  match todo with
  | [] => (Returned out, [])
  | (k, Literal v) :: rest =>
      let (r, rest') := finish_items doc value rest (dict_set k v out) in
      (r, (k, Literal v) :: rest')
  | (k, Wrapped m) :: rest =>
      match dict_get k value with
      | None => (Raised KeyError, todo)
      | Some a =>
          match target m doc (call_finish a) with
          | (Returned x, m') =>
              let (r, rest') :=
                finish_items doc value rest (dict_set k x out) in
              (r, (k, Wrapped m') :: rest')
          | (Raised e, m') => (Raised e, (k, Wrapped m') :: rest)
          end
      end
  end.

Definition assemble (doc : PyVal) (s : t) : PyResult PyVal * t :=
  let (r, table') := assemble_items doc (table s) [] in
  (match r with
   | Returned out => Returned (PyDict out)
   | Raised e => Raised e
   end, {| table := table' |}).

Definition finish (doc value : PyVal) (s : t) : PyResult PyVal * t :=
  match value with
  | PyDict items =>
      let (r, table') := finish_items doc items (table s) [] in
      (match r with
       | Returned out => Returned (PyDict out)
       | Raised e => Raised e
       end, {| table := table' |})
  | _ => (Raised TypeError, s)
  end.

(** Modelled from the spec: [DictOf] as a maker, with the default
    [reset]. *)
#[global] Instance dictof_maker : Maker t := {|
  _assemble := assemble;
  _finish := finish;
  reset := fun s => s
|}.

Definition make (table : list (string * entry)) : MakerObj t :=
  new {| table := table |}.
End Wrapped.
Arguments t T : clear implicits.
Arguments entry T : clear implicits.
End DictOf.

(** *** Unique *)

(** Modelled from the spec: [Unique(maker, exclude=None, assembler=True)]
    delegates to the wrapped maker but rejects, and retries, any value
    already produced since construction or reset; the set of seen values is
    seeded with the exclusion set; after a fixed number of attempts it gives
    up with a failed assertion, which is not caught; [reset] forgets the
    values handed out and returns the maker to its initial generation
    state (section 3), the seen-set it was seeded with.  The policy applies
    when assembling if [assembler] is set and when finishing otherwise, as
    [test_unique] configures it.  The attempt ceiling [max_attempts] is
    fixed at construction. *)
Module Unique.
Section Wrapped.
Context {T : Type} `{Maker T}.

(** Modelled from the spec: the attributes of a [Unique] maker, which is
    not among the sources. *)
Record t : Type := {
  maker : MakerObj T;
  exclude : list PyVal;
  assembler : bool;
  max_attempts : nat;
  used_values : list PyVal
}.

(** Modelled from the spec: the retry loop of [Unique], which is not among
    the sources: up to [attempts] calls of the wrapped maker, until one
    gives a value not seen before; a failed assertion when none does. *)
Fixpoint get_unique (attempts : nat) (used : list PyVal)
    (call : MakerObj T -> PyResult PyVal * MakerObj T) (m : MakerObj T)
    : PyResult PyVal * MakerObj T :=
  match attempts with
  | 0 => (Raised AssertionError, m)
  | S attempts' =>
      match call m with
      | (Returned v, m') =>
          if mem v used then get_unique attempts' used call m'
          else (Returned v, m')
      | (Raised e, m') => (Raised e, m')
      end
  end.

(** Record a value that was handed out. *)
Definition remember (r : PyResult PyVal) (used : list PyVal)
    : list PyVal :=
  match r with
  | Returned v => v :: used
  | Raised _ => used
  end.

Definition with_maker (s : t) (m : MakerObj T) (used : list PyVal) : t :=
  {| maker := m; exclude := exclude s; assembler := assembler s;
     max_attempts := max_attempts s; used_values := used |}.

(** Modelled from the spec: [Unique._assemble], which is not among the
    sources. *)
Definition assemble (doc : PyVal) (s : t) : PyResult PyVal * t :=
  if assembler s then
    let (r, m') :=
      target (maker s) doc
        (get_unique (max_attempts s) (used_values s) call_assemble) in
    (r, with_maker s m' (remember r (used_values s)))
  else
    let (r, m') := target (maker s) doc call_assemble in
    (r, with_maker s m' (used_values s)).

(** Modelled from the spec: [Unique._finish], which is not among the
    sources. *)
Definition finish (doc value : PyVal) (s : t) : PyResult PyVal * t :=
  if assembler s then
    let (r, m') := target (maker s) doc (call_finish value) in
    (r, with_maker s m' (used_values s))
  else
    let (r, m') :=
      target (maker s) doc
        (get_unique (max_attempts s) (used_values s)
           (call_finish value)) in
    (r, with_maker s m' (remember r (used_values s))).

(** Modelled from the spec: [Unique] as a maker; [reset] forgets every
    value handed out, so that the seen-set is again the exclusion set the
    maker was built with. *)
#[global] Instance unique_maker : Maker t := {|
  _assemble := assemble;
  _finish := finish;
  reset := fun s => with_maker s (maker s) (exclude s)
|}.

(** What no call changes: the exclusion set, the stage flag and the
    attempt ceiling. *)
Definition same_config (s s' : t) : Prop :=
  exclude s' = exclude s /\ assembler s' = assembler s /\
  max_attempts s' = max_attempts s.

(** The stage at which a [Unique] maker with the given [assembler] flag
    enforces uniqueness. *)
Definition is_unique_stage (assembler : bool) (c : call) : bool :=
  match c with
  | CallAssemble => assembler
  | CallFinish _ => negb assembler
  | CallReset => false
  end.

(** The values that stage handed out in a record of calls, and the number
    of calls made at that stage. *)
Definition produced (assembler : bool) (h : list (call * PyResult PyVal))
    : list PyVal :=
  flat_map (fun cr =>
              match snd cr with
              | Returned v =>
                  if is_unique_stage assembler (fst cr) then [v] else []
              | Raised _ => []
              end) h.

Definition stage_calls (assembler : bool) (cs : list call) : nat :=
  length (filter (is_unique_stage assembler) cs).

(** The exceptions raised in a record of calls. *)
Definition raised (h : list (call * PyResult PyVal)) : list PyExn :=
  flat_map (fun cr =>
              match snd cr with
              | Returned _ => []
              | Raised e => [e]
              end) h.

Definition make (m : MakerObj T) (exclude : list PyVal)
    (assembler : bool) (max_attempts : nat) : MakerObj t :=
  new {| maker := m; exclude := exclude; assembler := assembler;
         max_attempts := max_attempts; used_values := exclude |}.
End Wrapped.
Arguments t T : clear implicits.
End Unique.

(** ** A concrete set of collaborators

    A blueprint that numbers its documents, a frame class backed by an
    in-memory collection that can be switched off, and signals that record
    the names they were sent under. *)

Module Demo.

Record Env : Type := {
  counter : nat;
  db_up : bool;
  collection : list nat;
  notified : list string
}.

Definition reset (_ : unit) (e : Env) : Result string unit * Env :=
  (Returned tt,
   {| counter := 0; db_up := db_up e; collection := collection e;
      notified := notified e |}).

Definition assemble (_ : unit) (_ : list unit) (e : Env)
    : Result string nat * Env :=
  (Returned (counter e),
   {| counter := S (counter e); db_up := db_up e;
      collection := collection e; notified := notified e |}).

Definition finish (_ : unit) (d : nat) (_ : list unit) (e : Env)
    : Result string nat * Env :=
  (Returned (d + 100), e).

Definition quota_int (q : Z) (e : Env) : Result string Z * Env :=
  (Returned q, e).

Definition ensure_frames (_ : unit) (ds : list nat) (e : Env)
    : Result string (list nat) * Env :=
  (Returned ds, e).

Definition insert_many (_ : unit) (fs : list nat) (e : Env)
    : Result string (list nat) * Env :=
  if db_up e then
    (Returned fs,
     {| counter := counter e; db_up := true;
        collection := collection e ++ fs; notified := notified e |})
  else (Raised "insert failed"%string, e).

Definition send (name : string) (_ : unit) (_ : list nat) (e : Env)
    : Result string unit * Env :=
  (Returned tt,
   {| counter := counter e; db_up := db_up e; collection := collection e;
      notified := notified e ++ [name] |}).

Definition collaborators : Factory.Collaborators :=
  {| Factory.Blueprint := unit;
     Factory.Quota := Z;
     Factory.Preset := unit;
     Factory.Document := nat;
     Factory.Frame := nat;
     Factory.FrameCls := unit;
     Factory.Exn := string;
     Factory.Env := Env;
     Factory.blueprint_reset := reset;
     Factory.blueprint_assemble := assemble;
     Factory.blueprint_finish := finish;
     Factory.frame_cls := fun _ => tt;
     Factory.quota_int := quota_int;
     Factory._ensure_frames := ensure_frames;
     Factory.insert_many := insert_many;
     Factory.signal_send := send |}.

Definition factory : Factory.Factory collaborators :=
  Factory.__init__ collaborators None.

Definition world (up : bool) : Factory.World collaborators :=
  @Factory.Build_World collaborators
    {| counter := 7; db_up := up; collection := []; notified := [] |} [].

End Demo.

(** ** The makers of the tests *)

Module Examples.
Local Open Scope string_scope.

(** [DictOf({'json_type': lit, 'maker': Lambda(lambda doc: made)})] *)
Definition dict_of (lit made : PyVal) : MakerObj (DictOf.t Lambda.t) :=
  DictOf.make
    [("json_type", DictOf.Literal lit);
     ("maker", DictOf.Wrapped (Lambda.make (Lambda.const1 made) true false))].

Definition abcde : list PyVal :=
  [PyStr "a"; PyStr "b"; PyStr "c"; PyStr "d"; PyStr "e"].

(** [ListOf(Cycle(list('abcde')), Quota(6), reset_maker=...)] *)
Definition list_of_cycle (reset_maker : bool)
    : MakerObj (ListOf.t Cycle.t) :=
  ListOf.make (Cycle.make abcde) (Quota.make 6) reset_maker.



(** [Unique(Static('foo'))] *)
Definition unique_static (max_attempts : nat)
    : MakerObj (Unique.t Static.t) :=
  Unique.make (Static.make (PyStr "foo") true) [] true max_attempts.

(** [Unique(Static('foo'), assembler=False)] *)
Definition unique_static_finishing (max_attempts : nat)
    : MakerObj (Unique.t Static.t) :=
  Unique.make (Static.make (PyStr "foo") true) [] false max_attempts.

(** [Unique(Sequence('test-{index}'), exclude={'test-3'})] *)
Definition unique_sequence (start_from : Z) (max_attempts : nat)
    : MakerObj (Unique.t Sequence.t) :=
  Unique.make (Sequence.make "test-{index}" start_from) [PyStr "test-3"]
    true max_attempts.
End Examples.

(** ** Collaborators that fail on demand

    A blueprint that can be told to fail in [reset], at a given assemble
    call or on a given document, and quotas some of which [int()] rejects.
    The frame class and the signals always succeed. *)

Module Flaky.

Record Blueprint : Type := {
  reset_fails : bool;
  assemble_fails_at : option nat;
  finish_fails_on : option nat
}.

Definition reset (bp : Blueprint) (e : nat) : Result string unit * nat :=
  if reset_fails bp then (Raised "reset"%string, e) else (Returned tt, 0).

Definition assemble (bp : Blueprint) (_ : list unit) (e : nat)
    : Result string nat * nat :=
  match assemble_fails_at bp with
  | Some k => if Nat.eqb k e then (Raised "assemble"%string, e)
              else (Returned e, S e)
  | None => (Returned e, S e)
  end.

Definition finish (bp : Blueprint) (d : nat) (_ : list unit) (e : nat)
    : Result string nat * nat :=
  match finish_fails_on bp with
  | Some k => if Nat.eqb k d then (Raised "finish"%string, e)
              else (Returned (d + 100), e)
  | None => (Returned (d + 100), e)
  end.

Definition quota_int (q : option Z) (e : nat) : Result string Z * nat :=
  match q with
  | Some n => (Returned n, e)
  | None => (Raised "TypeError"%string, e)
  end.

Definition collaborators : Factory.Collaborators :=
  {| Factory.Blueprint := Blueprint;
     Factory.Quota := option Z;
     Factory.Preset := unit;
     Factory.Document := nat;
     Factory.Frame := nat;
     Factory.FrameCls := unit;
     Factory.Exn := string;
     Factory.Env := nat;
     Factory.blueprint_reset := reset;
     Factory.blueprint_assemble := assemble;
     Factory.blueprint_finish := finish;
     Factory.frame_cls := fun _ => tt;
     Factory.quota_int := quota_int;
     Factory._ensure_frames := fun _ ds e => (Returned ds, e);
     Factory.insert_many := fun _ fs e => (Returned fs, e);
     Factory.signal_send := fun _ _ _ e => (Returned tt, e) |}.

Definition factory : Factory.Factory collaborators :=
  Factory.__init__ collaborators None.

Definition world : Factory.World collaborators :=
  @Factory.Build_World collaborators 0 [].

Definition sound : Blueprint :=
  {| reset_fails := false; assemble_fails_at := None;
     finish_fails_on := None |}.
End Flaky.

(** * Properties of the factory *)

Module FactoryProps.
Import Factory.

Section Props.
Variable C : Collaborators.
Implicit Types (w : World C) (self : Factory C).

Lemma invoke_run A (f : Env C -> Result (Exn C) A * Env C) ev w r w' :
  invoke f ev w = (r, w') ->
  f (env w) = (r, env w') /\ trace w' = trace w ++ [ev r].
Proof.
  unfold invoke. destruct (f (env w)) as [r0 e0].
  intros H. inversion H; subst. simpl. auto.
Qed.

Lemma bind_returned A B (m : M C A) (k : A -> M C B) w b w' :
  bind m k w = (Returned b, w') ->
  exists a w1, m w = (Returned a, w1) /\ k a w1 = (Returned b, w').
Proof.
  unfold bind. destruct (m w) as [[a|e] w1]; intros H.
  - eauto.
  - discriminate.
Qed.

Lemma bind_raised A B (m : M C A) (k : A -> M C B) w e w' :
  bind m k w = (Raised e, w') ->
  m w = (Raised e, w') \/
  exists a w1, m w = (Returned a, w1) /\ k a w1 = (Raised e, w').
Proof.
  unfold bind. destruct (m w) as [[a|e0] w1]; intros H.
  - right. eauto.
  - left. inversion H; subst. reflexivity.
Qed.

(** The collecting loops of [assemble] and [finish]: one logged call per
    element, the results appended in call order; a raise stops the loop
    at the failing call. *)
Lemma collect_loop X A (f : X -> Env C -> Result (Exn C) A * Env C)
    (ev : X -> Result (Exn C) A -> Event C) (xs : list X) :
  forall acc w r w',
    for_each xs
      (fun acc x => bind (invoke (f x) (ev x)) (fun d => ret (acc ++ [d])))
      acc w = (r, w') ->
    exists ds,
      match r with
      | Returned out =>
          out = acc ++ ds /\ length ds = length xs /\
          trace w' =
            trace w ++
            map (fun xd => ev (fst xd) (Returned (snd xd))) (combine xs ds)
      | Raised e =>
          exists x,
            nth_error xs (length ds) = Some x /\
            trace w' =
              trace w ++
              map (fun xd => ev (fst xd) (Returned (snd xd)))
                (combine xs ds) ++
              [ev x (Raised e)]
      end.
Proof.
  induction xs as [|x xs IH]; intros acc w r w' H; simpl in H.
  - unfold ret in H. inversion H; subst. exists []. simpl.
    rewrite !app_nil_r. auto.
  - unfold bind at 1 in H.
    destruct (bind _ _ w) as [[a|e] w1] eqn:Hstep.
    + apply bind_returned in Hstep as (d & w2 & Hinv & Hret).
      apply invoke_run in Hinv as [_ Ht].
      unfold ret in Hret. inversion Hret; subst a w2. clear Hret.
      apply IH in H as [ds Hds]. exists (d :: ds).
      destruct r as [out|e].
      * destruct Hds as (-> & Hlen & Htr). rewrite Htr, Ht. simpl.
        rewrite <- !app_assoc. simpl. auto.
      * destruct Hds as (y & Hnth & Htr). exists y. rewrite Htr, Ht.
        simpl. rewrite <- !app_assoc. simpl. auto.
    + inversion H; subst r w'. clear H.
      apply bind_raised in Hstep as [Hinv | (d & w2 & _ & Hret)].
      * apply invoke_run in Hinv as [_ Ht]. exists []. simpl.
        exists x. split; [reflexivity | exact Ht].
      * unfold ret in Hret. discriminate.
Qed.

Lemma map_combine_snd X A B (g : A -> B) (xs : list X) :
  forall ds, length ds = length xs ->
    map (fun xd : X * A => g (snd xd)) (combine xs ds) = map g ds.
Proof.
  induction xs as [|x xs IH]; intros [|d ds] Hlen; simpl in *;
    try discriminate; auto.
  rewrite IH by lia. reflexivity.
Qed.

Lemma range_length lo hi : length (range lo hi) = Z.to_nat (hi - lo).
Proof. unfold range. rewrite length_map, length_seq. reflexivity. Qed.

Lemma count_app p (t1 t2 : list (Event C)) :
  count p (t1 ++ t2) = count p t1 + count p t2.
Proof. unfold count. rewrite filter_app, length_app. reflexivity. Qed.

Lemma count_none p (t : list (Event C)) :
  (forall e, In e t -> p e = false) -> count p t = 0.
Proof.
  unfold count. induction t as [|e t IH]; intros H; simpl; auto.
  rewrite (H e) by (left; reflexivity). apply IH.
  intros e' He'. apply H. right. exact He'.
Qed.

(** Events logged by a collecting loop all come from its own call. *)
Lemma loop_events_in X A (ev : X -> Result (Exn C) A -> Event C)
    (xs : list X) (ds : list A) e :
  In e (map (fun xd => ev (fst xd) (Returned (snd xd))) (combine xs ds)) ->
  exists x r, e = ev x r.
Proof.
  rewrite in_map_iff. intros ([x d] & <- & _). simpl. eauto.
Qed.

(** A successful [assemble]: the reset first, then [int(quota)], then the
    assemble calls whose results are the returned documents. *)
Lemma assemble_returned self bp q w docs w' :
  assemble self bp q w = (Returned docs, w') ->
  exists n,
    trace w' =
      trace w ++
      EvReset bp (Returned tt) :: EvInt q (Returned n) ::
      map (fun d => EvAssemble bp (presets self) (Returned d)) docs /\
    length docs = Z.to_nat n.
Proof.
  unfold assemble. intros H.
  apply bind_returned in H as ([] & w1 & Hr & H).
  apply invoke_run in Hr as [_ Ht1].
  apply bind_returned in H as (n & w2 & Hi & H).
  apply invoke_run in Hi as [_ Ht2].
  apply (collect_loop (fun _ : Z => blueprint_assemble C bp (presets self))
           (fun _ : Z => EvAssemble bp (presets self))) in H
    as (ds & Hout & Hlen & Htr).
  simpl in Hout. subst docs. exists n. split.
  - rewrite Htr, Ht2, Ht1, <- !app_assoc. simpl.
    rewrite (map_combine_snd
               (fun d => EvAssemble bp (presets self) (Returned d)))
      by exact Hlen.
    reflexivity.
  - rewrite Hlen, range_length. f_equal. lia.
Qed.

(** Whatever the outcome, [assemble] starts with its single reset and
    logs nothing but [int(quota)] and assemble calls after it. *)
Lemma assemble_events self bp q w r w' :
  assemble self bp q w = (r, w') ->
  exists r0 evs,
    trace w' = trace w ++ EvReset bp r0 :: evs /\
    (forall e, In e evs -> is_reset e = false /\ is_storage e = false).
Proof.
  unfold assemble. unfold bind at 1.
  destruct (invoke _ _ w) as [[[]|e0] w1] eqn:Hr; intros H;
    apply invoke_run in Hr as [_ Ht1].
  - unfold bind at 1 in H.
    destruct (invoke _ _ w1) as [[n|e1] w2] eqn:Hi;
      apply invoke_run in Hi as [_ Ht2].
    + apply (collect_loop
               (fun _ : Z => blueprint_assemble C bp (presets self))
               (fun _ : Z => EvAssemble bp (presets self))) in H
        as (ds & Hds).
      destruct r as [out|e].
      * destruct Hds as (_ & _ & Htr).
        eexists. eexists. split.
        { rewrite Htr, Ht2, Ht1, <- !app_assoc. simpl. reflexivity. }
        intros e [<- | He]; [auto|].
        apply (loop_events_in (fun _ : Z => EvAssemble bp (presets self)))
          in He as (x & r & ->). auto.
      * destruct Hds as (x & _ & Htr).
        eexists. eexists. split.
        { rewrite Htr, Ht2, Ht1, <- !app_assoc. simpl. reflexivity. }
        intros e' [<- | He]; [auto|].
        apply in_app_or in He as [He | [<- | []]]; [|auto].
        apply (loop_events_in (fun _ : Z => EvAssemble bp (presets self)))
          in He as (y & r & ->). auto.
    + inversion H; subst r w'. eexists. eexists. split.
      { rewrite Ht2, Ht1, <- app_assoc. simpl. reflexivity. }
      intros e [<- | []]. auto.
  - inversion H; subst r w'. exists (Raised e0), []. split.
    + exact Ht1.
    + intros e [].
Qed.

Lemma invoke_raised A (f : Env C -> Result (Exn C) A * Env C) ev w e w' :
  (forall r, event_exn (ev r) = exn_of r) ->
  invoke f ev w = (Raised e, w') -> propagated e (trace w').
Proof.
  intros Hev H. apply invoke_run in H as [_ Ht].
  exists (trace w), (ev (Raised e)). split; [exact Ht | apply Hev].
Qed.

Lemma collect_loop_raised X A (f : X -> Env C -> Result (Exn C) A * Env C)
    (ev : X -> Result (Exn C) A -> Event C) (xs : list X) acc w e w' :
  (forall x r, event_exn (ev x r) = exn_of r) ->
  for_each xs
    (fun acc x => bind (invoke (f x) (ev x)) (fun d => ret (acc ++ [d])))
    acc w = (Raised e, w') ->
  propagated e (trace w').
Proof.
  intros Hev H. apply collect_loop in H as (ds & x & _ & Htr).
  eexists. exists (ev x (Raised e)). split.
  - rewrite Htr, app_assoc. reflexivity.
  - apply Hev.
Qed.

Lemma assemble_raised self bp q w e w' :
  assemble self bp q w = (Raised e, w') -> propagated e (trace w').
Proof.
  unfold assemble. intros H.
  apply bind_raised in H as [H | (u & w1 & _ & H)].
  { apply invoke_raised in H; auto. }
  apply bind_raised in H as [H | (n & w2 & _ & H)].
  { apply invoke_raised in H; auto. }
  apply (collect_loop_raised
           (fun _ : Z => blueprint_assemble C bp (presets self))
           (fun _ : Z => EvAssemble bp (presets self))) in H; auto.
Qed.

(** *** [finish] *)

Lemma finish_events self bp docs w r w' :
  finish self bp docs w = (r, w') ->
  exists evs,
    trace w' = trace w ++ evs /\
    (forall e, In e evs -> is_storage e = false).
Proof.
  unfold finish. unfold bind at 1.
  destruct (invoke _ _ w) as [[[]|e0] w1] eqn:Hr; intros H;
    apply invoke_run in Hr as [_ Ht1].
  - apply (collect_loop
             (fun d => blueprint_finish C bp d (presets self))
             (fun d => EvFinish bp d (presets self))) in H as (ds & Hds).
    destruct r as [out|e].
    + destruct Hds as (_ & _ & Htr). eexists. split.
      { rewrite Htr, Ht1, <- app_assoc. reflexivity. }
      intros e He. simpl in He. destruct He as [<- | He]; [auto|].
      apply (loop_events_in (fun d => EvFinish bp d (presets self)))
        in He as (x & r & ->). auto.
    + destruct Hds as (x & _ & Htr). eexists. split.
      { rewrite Htr, Ht1, <- app_assoc. reflexivity. }
      intros e' He. simpl in He. destruct He as [<- | He]; [auto|].
      apply in_app_or in He as [He | [<- | []]]; [|auto].
      apply (loop_events_in (fun d => EvFinish bp d (presets self)))
        in He as (y & r & ->). auto.
  - inversion H; subst r w'. exists [EvReset bp (Raised e0)].
    split; [exact Ht1|]. intros e [<- | []]. auto.
Qed.

Lemma finish_raised self bp docs w e w' :
  finish self bp docs w = (Raised e, w') -> propagated e (trace w').
Proof.
  unfold finish. intros H.
  apply bind_raised in H as [H | (u & w1 & _ & H)].
  { apply invoke_raised in H; auto. }
  apply (collect_loop_raised
           (fun d => blueprint_finish C bp d (presets self))
           (fun d => EvFinish bp d (presets self))) in H; auto.
Qed.

Lemma is_send_storage name (e : Event C) :
  is_storage e = false -> is_send name e = false.
Proof. destruct e; simpl; auto; discriminate. Qed.

Lemma finish_sends self bp docs w r w' name :
  finish self bp docs w = (r, w') ->
  count (is_send name) (trace w') = count (is_send name) (trace w).
Proof.
  intros H. apply finish_events in H as (evs & -> & Hevs).
  rewrite count_app, (count_none (is_send name) evs); [lia|].
  intros e He. apply is_send_storage, Hevs, He.
Qed.

(** *** [populate] *)

Lemma populate_raised self bp docs w e w' :
  populate self bp docs w = (Raised e, w') -> propagated e (trace w').
Proof.
  unfold populate. intros H.
  apply bind_raised in H as [H | (fin & w1 & _ & H)].
  { apply finish_raised in H. exact H. }
  apply bind_raised in H as [H | (frames & w2 & _ & H)].
  { apply invoke_raised in H; auto. }
  apply bind_raised in H as [H | (u & w3 & _ & H)].
  { apply invoke_raised in H; auto. }
  apply bind_raised in H as [H | (frames' & w4 & _ & H)].
  { apply invoke_raised in H; auto. }
  apply bind_raised in H as [H | (u' & w5 & _ & H)].
  { apply invoke_raised in H; auto. }
  unfold ret in H. discriminate.
Qed.

(** C1 (amended): [Factory.assemble] logs exactly one [blueprint.reset()],
    before anything else, and no storage call.  When it returns, [int(quota)]
    gave some [n], the documents are, in order, the results of the
    successive [blueprint.assemble(presets)] calls, and there are
    [max(0, n)] of them; when it raises, the exception is the one of the
    collaborator call logged last. *)
Theorem assemble_spec self bp q w r w'
    (Hrun : assemble self bp q w = (r, w')) :
  exists r0 evs,
    trace w' = trace w ++ EvReset bp r0 :: evs /\
    count (@is_reset C) evs = 0 /\
    count (@is_storage C) evs = 0 /\
    match r with
    | Returned docs =>
        exists n,
          r0 = Returned tt /\
          evs = EvInt q (Returned n) ::
                map (fun d => EvAssemble bp (presets self) (Returned d))
                  docs /\
          Z.of_nat (length docs) = Z.max 0 n
    | Raised e => propagated e (trace w')
    end.
Proof.
  destruct (assemble_events _ _ _ _ Hrun) as (r0 & evs & Htr & Hevs).
  exists r0, evs. split; [exact Htr|].
  split; [apply count_none; intros e He; apply Hevs, He|].
  split; [apply count_none; intros e He; apply Hevs, He|].
  destruct r as [docs|e].
  - destruct (assemble_returned _ _ _ _ Hrun) as (n & Htr' & Hlen).
    exists n. rewrite Htr in Htr'. apply app_inv_head in Htr'.
    inversion Htr'; subst. repeat split; auto. lia.
  - apply assemble_raised in Hrun. exact Hrun.
Qed.

(** C10: [assemble] converts the quota with [int(quota)] only, whatever the
    quota object is; when the integer is 0 or negative the result is the
    empty list, and the single [blueprint.reset()] has still been made,
    with no assemble call after it. *)
Theorem assemble_nonpositive_quota self bp q w e1 n e2
    (Hreset : blueprint_reset C bp (env w) = (Returned tt, e1))
    (Hint : quota_int C q e1 = (Returned n, e2))
    (Hn : (n <= 0)%Z) :
  assemble self bp q w =
    (Returned [],
     {| env := e2;
        trace := trace w ++
                 [EvReset bp (Returned tt); EvInt q (Returned n)] |}) /\
  count (@is_reset C) (trace (snd (assemble self bp q w))) =
    S (count (@is_reset C) (trace w)) /\
  count (@is_assemble C) (trace (snd (assemble self bp q w))) =
    count (@is_assemble C) (trace w).
Proof.
  assert (Hrun : assemble self bp q w =
    (Returned [],
     {| env := e2;
        trace := trace w ++
                 [EvReset bp (Returned tt); EvInt q (Returned n)] |})).
  { unfold assemble, bind, invoke. rewrite Hreset. simpl. rewrite Hint.
    unfold range. replace (Z.to_nat (n - 0)) with 0 by lia. simpl.
    unfold ret. rewrite <- app_assoc. reflexivity. }
  rewrite Hrun. simpl. rewrite !count_app. unfold count. simpl.
  repeat split; lia.
Qed.

(** C2 (amended): once [populate] has reached the bulk insert, the
    'factory_insert' signal has been sent.  If [insert_many] raises, the
    exception is what [populate] raises, no 'factory_inserted' signal is
    sent, and the 'factory_insert' signal stays sent.  If [insert_many]
    returns, 'factory_inserted' is sent next, with the inserted frames. *)
Theorem populate_insert_hooks self bp docs w fin w1 frames e2 e3 ri e4
    (Hfin : finish self bp docs w = (Returned fin, w1))
    (Hens : _ensure_frames C (frame_cls C bp) fin (env w1) =
              (Returned frames, e2))
    (Hpre : signal_send C "factory_insert" (frame_cls C bp) frames e2 =
              (Returned tt, e3))
    (Hins : insert_many C (frame_cls C bp) frames e3 = (ri, e4)) :
  let cls := frame_cls C bp in
  let before :=
    trace w1 ++
    [EvEnsureFrames cls fin (Returned frames);
     EvSend "factory_insert" cls frames (Returned tt)] in
  match ri with
  | Raised e =>
      populate self bp docs w =
        (Raised e,
         {| env := e4;
            trace := before ++ [EvInsertMany cls frames (Raised e)] |}) /\
      count (@is_send C "factory_inserted")
        (trace (snd (populate self bp docs w))) =
        count (@is_send C "factory_inserted") (trace w) /\
      count (@is_send C "factory_insert")
        (trace (snd (populate self bp docs w))) =
        S (count (@is_send C "factory_insert") (trace w))
  | Returned frames' =>
      forall rs e5,
        signal_send C "factory_inserted" cls frames' e4 = (rs, e5) ->
        populate self bp docs w =
          (match rs with
           | Returned _ => Returned None
           | Raised e => Raised e
           end,
           {| env := e5;
              trace := before ++
                       [EvInsertMany cls frames (Returned frames');
                        EvSend "factory_inserted" cls frames' rs] |})
  end.
Proof.
  intros cls before. subst cls before.
  destruct ri as [frames'|e].
  - intros rs e5 Hpost.
    unfold populate. unfold bind at 1. rewrite Hfin.
    unfold bind, invoke. rewrite Hens. simpl. rewrite Hpre. simpl.
    rewrite Hins. simpl. rewrite Hpost. simpl.
    rewrite <- !app_assoc. simpl. destruct rs; reflexivity.
  - assert (Hrun : populate self bp docs w =
      (Raised e,
       {| env := e4;
          trace := (trace w1 ++
            [EvEnsureFrames (frame_cls C bp) fin (Returned frames);
             EvSend "factory_insert" (frame_cls C bp) frames (Returned tt)])
            ++ [EvInsertMany (frame_cls C bp) frames (Raised e)] |})).
    { unfold populate. unfold bind at 1. rewrite Hfin.
      unfold bind, invoke. rewrite Hens. simpl. rewrite Hpre. simpl.
      rewrite Hins. simpl. rewrite <- !app_assoc. reflexivity. }
    rewrite Hrun. simpl. split; [reflexivity|].
    rewrite !count_app.
    rewrite (finish_sends _ _ _ _ "factory_inserted" Hfin).
    rewrite (finish_sends _ _ _ _ "factory_insert" Hfin).
    unfold count. simpl. split; lia.
Qed.

(** C9: a call of [populate] that completes evaluates to [None], whatever
    [finish], [_ensure_frames] and [insert_many] produced; the only other
    outcome is the exception of the collaborator call logged last. *)
Theorem populate_returns_none self bp docs w :
  match populate self bp docs w with
  | (Returned v, _) => v = None
  | (Raised e, w') => propagated e (trace w')
  end.
Proof.
  destruct (populate self bp docs w) as [[v|e] w'] eqn:H.
  - unfold populate in H.
    apply bind_returned in H as (fin & w1 & _ & H).
    apply bind_returned in H as (frames & w2 & _ & H).
    apply bind_returned in H as (u & w3 & _ & H).
    apply bind_returned in H as (frames' & w4 & _ & H).
    apply bind_returned in H as (u' & w5 & _ & H).
    unfold ret in H. inversion H. reflexivity.
  - apply populate_raised in H. exact H.
Qed.
End Props.

(** C1, at 5: the demo blueprint assembles documents 0..4 after its reset. *)
Lemma assemble_spec_witness :
  let run := assemble Demo.factory tt 5%Z (Demo.world true) in
  fst run = Returned [0; 1; 2; 3; 4] /\
  exists r0 evs,
    trace (snd run) =
      trace (Demo.world true) ++
      EvReset (C:=Demo.collaborators) tt r0 :: evs /\
    count (@is_reset Demo.collaborators) evs = 0 /\
    count (@is_storage Demo.collaborators) evs = 0 /\
    match fst run with
    | Returned docs =>
        exists n,
          r0 = Returned tt /\
          evs = EvInt (C:=Demo.collaborators) 5%Z (Returned n) ::
                map (fun d => EvAssemble (C:=Demo.collaborators) tt
                                (presets Demo.factory) (Returned d)) docs /\
          Z.of_nat (length docs) = Z.max 0 n
    | Raised e => propagated e (trace (snd run))
    end.
Proof.
  split; [reflexivity|].
  exact (@assemble_spec Demo.collaborators Demo.factory tt 5%Z
           (Demo.world true) _ _ eq_refl).
Defined.

(** C1 as worded fails for a negative quota: [int(quota)] is -1 and the
    call returns a list of 0 documents, not of -1. *)
Lemma assemble_negative_quota :
  let run := assemble Demo.factory tt (-1)%Z (Demo.world true) in
  In (EvInt (C:=Demo.collaborators) (-1)%Z (Returned (-1)%Z))
     (trace (snd run)) /\
  exists docs,
    fst run = Returned docs /\ Z.of_nat (length docs) <> (-1)%Z.
Proof.
  split.
  - vm_compute. right. left. reflexivity.
  - exists []. split; [reflexivity | discriminate].
Qed.

Lemma assemble_nonpositive_quota_witness :
  let run := assemble Demo.factory tt (-3)%Z (Demo.world true) in
  fst run = Returned [] /\
  count (@is_reset Demo.collaborators) (trace (snd run)) = 1 /\
  count (@is_assemble Demo.collaborators) (trace (snd run)) = 0.
Proof.
  destruct (@assemble_nonpositive_quota Demo.collaborators Demo.factory tt
              (-3)%Z (Demo.world true) _ (-3)%Z _ eq_refl eq_refl)
    as (Hrun & Hreset & Hasm); [lia|].
  cbv zeta. rewrite Hrun in Hreset, Hasm. rewrite Hrun.
  split; [reflexivity|]. split; [exact Hreset | exact Hasm].
Defined.

(** C2 as worded fails: with the collection down, [insert_many] raises,
    [populate] raises the same exception, 'factory_insert' was sent and
    'factory_inserted' never is. *)
Lemma populate_insert_failure_skips_post_hook :
  let run := populate Demo.factory tt [1; 2] (Demo.world false) in
  fst run = Raised "insert failed"%string /\
  count (@is_insert Demo.collaborators) (trace (snd run)) = 1 /\
  count (@is_send Demo.collaborators "factory_insert") (trace (snd run)) = 1 /\
  count (@is_send Demo.collaborators "factory_inserted") (trace (snd run)) = 0 /\
  Demo.notified (env (snd run)) = ["factory_insert"%string].
Proof. vm_compute. repeat split. Qed.

(** With the collection up, [populate] inserts the finished documents,
    sends both signals and evaluates to [None]. *)
Lemma populate_returns_none_witness :
  let run := populate Demo.factory tt [1; 2] (Demo.world true) in
  fst run = Returned None /\
  Demo.collection (env (snd run)) = [101; 102] /\
  Demo.notified (env (snd run)) =
    ["factory_insert"; "factory_inserted"]%string.
Proof.
  pose proof (@populate_returns_none Demo.collaborators Demo.factory tt
                [1; 2] (Demo.world true)) as H.
  cbv zeta.
  destruct (populate Demo.factory tt [1; 2] (Demo.world true))
    as [[v|e] w'] eqn:Hrun.
  - subst v. split; [reflexivity|].
    vm_compute in Hrun. inversion Hrun. split; reflexivity.
  - vm_compute in Hrun. discriminate.
Defined.

Lemma populate_insert_hooks_witness :
  let run := populate Demo.factory tt [1; 2] (Demo.world false) in
  fst run = Raised "insert failed"%string /\
  count (@is_send Demo.collaborators "factory_inserted") (trace (snd run)) = 0 /\
  count (@is_send Demo.collaborators "factory_insert") (trace (snd run)) = 1.
Proof.
  pose proof (@populate_insert_hooks Demo.collaborators Demo.factory tt
                [1; 2] (Demo.world false) _ _ _ _ _ _ _
                eq_refl eq_refl eq_refl eq_refl) as H.
  cbv zeta in H. destruct H as (Hrun & Hpost & Hpre).
  cbv zeta. rewrite Hrun in Hpost, Hpre. rewrite Hrun.
  split; [reflexivity|]. split; [exact Hpost | exact Hpre].
Defined.

End FactoryProps.

(** * Properties of the makers *)

Module MakerProps.

(** ** Values *)

Lemma pyval_eqb_refl : forall v, pyval_eqb v v = true.
Proof.
  fix IH 1. intros [ | z | s | xs | items]; simpl.
  - reflexivity.
  - apply Z.eqb_refl.
  - apply String.eqb_refl.
  - induction xs as [|x xs IHxs]; [reflexivity|].
    rewrite IH, IHxs. reflexivity.
  - induction items as [|[k x] items IHitems]; [reflexivity|].
    rewrite String.eqb_refl, IH, IHitems. reflexivity.
Qed.

Lemma mem_In v s : In v s -> mem v s = true.
Proof.
  intros Hin. unfold mem. apply existsb_exists. exists v.
  split; [exact Hin | apply pyval_eqb_refl].
Qed.

Lemma not_mem_not_In v s : mem v s = false -> ~ In v s.
Proof.
  intros Hmem Hin. apply mem_In in Hin. congruence.
Qed.

(** ** The base class *)

Section Base.
Context {T : Type}.



Context `{Maker T}.


Lemma call_finish_document v (m : MakerObj T) :
  document (snd (call_finish v m)) = document m.
Proof.
  unfold call_finish. destruct (_finish _ _ _). reflexivity.
Qed.



End Base.

(** ** Cycle *)

Section CycleProps.
Import Cycle.

Lemma cycle_call_assemble (m : MakerObj Cycle.t) :
  item_index (self m) < length (items (self m)) ->
  call_assemble m =
    (Returned (assembled (item_index (self m))),
     {| _document := _document m;
        self := {| items := items (self m);
                   item_index :=
                     S (item_index (self m)) mod length (items (self m)) |}
     |}).
Proof.
  intros Hlt. unfold call_assemble. simpl.
  destruct (nth_error (items (self m)) (item_index (self m))) eqn:Hnth.
  - destruct (Nat.ltb_spec (S (item_index (self m)))
                (length (items (self m)))) as [Hin | Hout].
    + rewrite Nat.mod_small by exact Hin. reflexivity.
    + replace (S (item_index (self m))) with (length (items (self m)))
        by lia.
      rewrite Nat.Div0.mod_same. reflexivity.
  - apply nth_error_None in Hnth. lia.
Qed.

(** From cursor [c], [n] calls give the indices [c, c+1, ...] modulo the
    size of the pool and leave the cursor at [(c + n) mod k]. *)
Lemma cycle_assemble_n n : forall (m : MakerObj Cycle.t),
  item_index (self m) < length (items (self m)) ->
  assemble_n n m =
    (map (fun j => assembled
                     ((item_index (self m) + j) mod length (items (self m))))
       (seq 0 n),
     None,
     {| _document := _document m;
        self := {| items := items (self m);
                   item_index :=
                     (item_index (self m) + n) mod length (items (self m))
                |} |}).
Proof.
  induction n as [|n IH]; intros m Hlt.
  - simpl. rewrite Nat.add_0_r, Nat.mod_small by exact Hlt.
    destruct m as [d [P c]]. reflexivity.
  - cbn [assemble_n]. rewrite cycle_call_assemble by exact Hlt.
    rewrite IH.
    2:{ simpl. apply Nat.mod_upper_bound. lia. }
    simpl. rewrite <- seq_shift, map_map.
    rewrite Nat.add_0_r, (Nat.mod_small _ _ Hlt).
    f_equal; [f_equal; f_equal|].
    + apply map_ext. intros j.
      rewrite Nat.Div0.add_mod_idemp_l. do 2 f_equal. lia.
    + rewrite Nat.Div0.add_mod_idemp_l. do 3 f_equal. lia.
Qed.

(** C5: for a pool [P] of size [k > 0], the [i]-th assemble call
    (0-indexed) after construction, or after [reset()] from any cursor
    position, returns index [i mod k] (as [[index, None]]); [reset()] puts
    the cursor at 0; and finishing an assembled index gives [P[index]]. *)
Theorem cycle_spec (P : list PyVal) (m : MakerObj Cycle.t)
    (HP : P <> []) (Hm : items (self m) = P) :
  let k := length P in
  (forall i,
     fst (call_assemble (snd (assemble_n i (Cycle.make P)))) =
       Returned (assembled (i mod k))) /\
  (forall i,
     fst (call_assemble (snd (assemble_n i (call_reset m)))) =
       Returned (assembled (i mod k))) /\
  (forall n,
     fst (assemble_n n (call_reset m)) =
       (map (fun i => assembled (i mod k)) (seq 0 n), None)) /\
  item_index (self (call_reset m)) = 0 /\
  (forall i,
     i < k ->
     call_finish (assembled i) m = (Returned (nth i P PyNone), m)).
Proof.
  intros k.
  assert (Hk : 0 < k) by (subst k; destruct P; [congruence | simpl; lia]).
  assert (Hrun : forall (m0 : MakerObj Cycle.t) i,
            items (self m0) = P -> item_index (self m0) = 0 ->
            fst (call_assemble (snd (assemble_n i m0))) =
              Returned (assembled (i mod k))).
  { intros m0 i HP0 Hc0. rewrite cycle_assemble_n by (rewrite HP0, Hc0; exact Hk).
    rewrite cycle_call_assemble; simpl; rewrite HP0, Hc0; simpl.
    - reflexivity.
    - apply Nat.mod_upper_bound. lia. }
  repeat split.
  - intros i. apply Hrun; reflexivity.
  - intros i. apply Hrun; [exact Hm | reflexivity].
  - intros n. rewrite cycle_assemble_n; simpl; rewrite Hm; [|exact Hk].
    reflexivity.
  - intros i Hi. unfold call_finish, assembled. simpl.
    unfold list_get. rewrite Hm.
    destruct (Z.ltb_spec (Z.of_nat i) 0) as [Hneg|_]; [lia|].
    rewrite Nat2Z.id, (nth_error_nth' P PyNone Hi).
    destruct m. reflexivity.
Qed.
End CycleProps.

(** [Cycle(list('abcde'))], advanced by two calls and then reset. *)
Lemma cycle_spec_witness :
  let m := snd (assemble_n 2 (Cycle.make Examples.abcde)) in
  fst (assemble_n 7 (call_reset m)) =
    (map Cycle.assembled [0; 1; 2; 3; 4; 0; 1], None) /\
  call_finish (Cycle.assembled 3) m = (Returned (PyStr "d"), m).
Proof.
  assert (HP : Examples.abcde <> []) by discriminate.
  assert (Hm : Cycle.items
                 (self (snd (assemble_n 2 (Cycle.make Examples.abcde)))) =
               Examples.abcde) by reflexivity.
  destruct (@cycle_spec Examples.abcde
              (snd (assemble_n 2 (Cycle.make Examples.abcde))) HP Hm)
    as (_ & _ & Hn & _ & Hfin).
  split.
  - exact (Hn 7).
  - apply (Hfin 3). simpl. lia.
Defined.

(** ** ListOf *)

Section ListOfProps.
Context {T : Type} `{Maker T}.
Import ListOf.





End ListOfProps.




(** ** DictOf *)

Lemma dict_get_set_same k v items : dict_get k (dict_set k v items) = Some v.
Proof.
  induction items as [|[k' v'] items IH]; simpl.
  - rewrite String.eqb_refl. reflexivity.
  - destruct (String.eqb k k') eqn:Hk; simpl; rewrite Hk; auto.
Qed.

Lemma dict_get_set_other k k' v items :
  k <> k' -> dict_get k (dict_set k' v items) = dict_get k items.
Proof.
  intros Hne. induction items as [|[k0 v0] items IH]; simpl.
  - apply String.eqb_neq in Hne. rewrite Hne. reflexivity.
  - destruct (String.eqb k' k0) eqn:Hk0; simpl.
    + apply String.eqb_eq in Hk0. subst k0.
      apply String.eqb_neq in Hne. rewrite Hne. reflexivity.
    + destruct (String.eqb k k0); auto.
Qed.

Section DictOfProps.
Context {T : Type} `{Maker T}.
Import DictOf.

(** Assembling never changes what is already stored under a key the rest
    of the table does not mention. *)
Lemma assemble_items_keeps doc k : forall todo out res todo',
  ~ In k (map fst todo) ->
  assemble_items doc todo out = (Returned res, todo') ->
  dict_get k res = dict_get k out.
Proof.
  induction todo as [|[k0 [v|m]] todo IH]; intros out res todo' Hk Hrun;
    simpl in Hrun.
  - inversion Hrun. reflexivity.
  - destruct (assemble_items doc todo _) as [r rest'] eqn:Hrest.
    inversion Hrun; subst r todo'. apply IH in Hrest.
    + rewrite Hrest. apply dict_get_set_other. simpl in Hk. intuition.
    + simpl in Hk. intuition.
  - destruct (target m doc call_assemble) as [[a|e] m']; [|discriminate].
    destruct (assemble_items doc todo _) as [r rest'] eqn:Hrest.
    inversion Hrun; subst r todo'. apply IH in Hrest.
    + rewrite Hrest. apply dict_get_set_other. simpl in Hk. intuition.
    + simpl in Hk. intuition.
Qed.

(** A literal key assembles to [None]. *)
Lemma assemble_items_literal doc k v : forall todo out res todo',
  NoDup (map fst todo) -> In (k, Literal v) todo ->
  assemble_items doc todo out = (Returned res, todo') ->
  dict_get k res = Some PyNone.
Proof.
  induction todo as [|[k0 [v0|m]] todo IH]; intros out res todo' Hnd Hin Hrun;
    simpl in Hrun, Hin.
  - contradiction.
  - destruct (assemble_items doc todo _) as [r rest'] eqn:Hrest.
    inversion Hrun; subst r todo'. simpl in Hnd.
    apply NoDup_cons_iff in Hnd as [Hnotin Hnd'].
    destruct Hin as [Heq | Hin].
    + inversion Heq; subst k0 v0.
      rewrite (assemble_items_keeps _ _ _ _ Hnotin Hrest).
      apply dict_get_set_same.
    + eapply IH; eauto.
  - destruct (target m doc call_assemble) as [[a|e] m']; [|discriminate].
    destruct (assemble_items doc todo _) as [r rest'] eqn:Hrest.
    inversion Hrun; subst r todo'. simpl in Hnd.
    apply NoDup_cons_iff in Hnd as [Hnotin Hnd'].
    destruct Hin as [Heq | Hin]; [discriminate|].
    eapply IH; eauto.
Qed.

Lemma finish_items_keeps doc value k : forall todo out res todo',
  ~ In k (map fst todo) ->
  finish_items doc value todo out = (Returned res, todo') ->
  dict_get k res = dict_get k out.
Proof.
  induction todo as [|[k0 [v|m]] todo IH]; intros out res todo' Hk Hrun;
    simpl in Hrun.
  - inversion Hrun. reflexivity.
  - destruct (finish_items doc value todo _) as [r rest'] eqn:Hrest.
    inversion Hrun; subst r todo'. apply IH in Hrest.
    + rewrite Hrest. apply dict_get_set_other. simpl in Hk. intuition.
    + simpl in Hk. intuition.
  - destruct (dict_get k0 value) as [a|]; [|discriminate].
    destruct (target m doc (call_finish a)) as [[x|e] m']; [|discriminate].
    destruct (finish_items doc value todo _) as [r rest'] eqn:Hrest.
    inversion Hrun; subst r todo'. apply IH in Hrest.
    + rewrite Hrest. apply dict_get_set_other. simpl in Hk. intuition.
    + simpl in Hk. intuition.
Qed.

(** A literal key finishes to the literal, whatever was assembled. *)
Lemma finish_items_literal doc value k v : forall todo out res todo',
  NoDup (map fst todo) -> In (k, Literal v) todo ->
  finish_items doc value todo out = (Returned res, todo') ->
  dict_get k res = Some v.
Proof.
  induction todo as [|[k0 [v0|m]] todo IH]; intros out res todo' Hnd Hin Hrun;
    simpl in Hrun, Hin.
  - contradiction.
  - destruct (finish_items doc value todo _) as [r rest'] eqn:Hrest.
    inversion Hrun; subst r todo'. simpl in Hnd.
    apply NoDup_cons_iff in Hnd as [Hnotin Hnd'].
    destruct Hin as [Heq | Hin].
    + inversion Heq; subst k0 v0.
      rewrite (finish_items_keeps _ _ _ _ _ Hnotin Hrest).
      apply dict_get_set_same.
    + eapply IH; eauto.
  - destruct (dict_get k0 value) as [a|]; [|discriminate].
    destruct (target m doc (call_finish a)) as [[x|e] m']; [|discriminate].
    destruct (finish_items doc value todo _) as [r rest'] eqn:Hrest.
    inversion Hrun; subst r todo'. simpl in Hnd.
    apply NoDup_cons_iff in Hnd as [Hnotin Hnd'].
    destruct Hin as [Heq | Hin]; [discriminate|].
    eapply IH; eauto.
Qed.
(** For any table with distinct keys: a literal key assembles to [None]
    and finishes to its literal. *)
Lemma dictof_literal_keys (D : MakerObj (DictOf.t T)) k v :
  NoDup (map fst (table (self D))) -> In (k, Literal v) (table (self D)) ->
  (forall out D',
     call_assemble D = (Returned (PyDict out), D') ->
     dict_get k out = Some PyNone) /\
  (forall items out D',
     call_finish (PyDict items) D = (Returned (PyDict out), D') ->
     dict_get k out = Some v).
Proof.
  intros Hnd Hin. split.
  - intros out D'. unfold call_assemble. simpl. unfold assemble.
    destruct (assemble_items _ _ _) as [[res|e] table'] eqn:Hrun;
      intros Heq; inversion Heq; subst.
    eapply assemble_items_literal; eauto.
  - intros items out D'. unfold call_finish. simpl.
    destruct (finish_items _ _ _ _) as [[res|e] table'] eqn:Hrun;
      intros Heq; inversion Heq; subst.
    eapply finish_items_literal; eauto.
Qed.
End DictOfProps.

(** C7: [DictOf({'json_type': 'foo', 'maker': Lambda(lambda doc: 'bar')})]
    assembles to [{'json_type': None, 'maker': 'bar'}] and finishes that to
    [{'json_type': 'foo', 'maker': 'bar'}]; the same holds with any literal
    in place of ['foo'] and any value in place of ['bar'], and whatever is
    stored under the literal's key in the value being finished. *)
Theorem dictof_literal_and_maker :
  let maker := Examples.dict_of (PyStr "foo") (PyStr "bar") in
  let assembled := PyDict [("json_type"%string, PyNone);
                           ("maker"%string, PyStr "bar")] in
  (fst (call_assemble maker) = Returned assembled /\
   fst (call_finish assembled (snd (call_assemble maker))) =
     Returned (PyDict [("json_type"%string, PyStr "foo");
                       ("maker"%string, PyStr "bar")])) /\
  (forall lit made,
     fst (call_assemble (Examples.dict_of lit made)) =
       Returned (PyDict [("json_type"%string, PyNone);
                         ("maker"%string, made)])) /\
  (forall lit made stored,
     fst (call_finish
            (PyDict [("json_type"%string, stored); ("maker"%string, made)])
            (Examples.dict_of lit made)) =
       Returned (PyDict [("json_type"%string, lit);
                         ("maker"%string, made)])).
Proof.
  intros maker assembled. split; [split; reflexivity|].
  split; intros; reflexivity.
Qed.

(** ** Unique *)

Lemma pyval_eqb_eq : forall a b, pyval_eqb a b = true -> a = b.
Proof.
  fix IH 1. intros [ | x | s | xs | items] [ | y | t | ys | items'];
    simpl; try discriminate.
  - reflexivity.
  - intros Heq. apply Z.eqb_eq in Heq. congruence.
  - intros Heq. apply String.eqb_eq in Heq. congruence.
  - intros Heq. f_equal. revert ys Heq.
    induction xs as [|x xs IHxs]; intros [|y ys] Heq; try discriminate.
    + reflexivity.
    + apply andb_prop in Heq as [Hx Hxs].
      rewrite (IH x y Hx), (IHxs ys Hxs). reflexivity.
  - intros Heq. f_equal. revert items' Heq.
    induction items as [|[k x] items IHitems]; intros [|[l y] items'] Heq;
      try discriminate.
    + reflexivity.
    + apply andb_prop in Heq as [Hkx Hrest].
      apply andb_prop in Hkx as [Hk Hx]. apply String.eqb_eq in Hk.
      rewrite Hk, (IH x y Hx), (IHitems items' Hrest). reflexivity.
Qed.

Lemma not_In_not_mem v s : ~ In v s -> mem v s = false.
Proof.
  intros Hnot. unfold mem. destruct (existsb (pyval_eqb v) s) eqn:Hex.
  - apply existsb_exists in Hex as (x & Hin & Heq).
    apply pyval_eqb_eq in Heq. subst x. contradiction.
  - reflexivity.
Qed.

Section UniqueProps.
Context {T : Type} `{Maker T}.
Import Unique.

(** A value [get_unique] hands out was not in the seen-set. *)
Lemma get_unique_fresh used call : forall attempts (m m' : MakerObj T) v,
  get_unique attempts used call m = (Returned v, m') -> mem v used = false.
Proof.
  induction attempts as [|n IH]; intros m m' v Hrun; simpl in Hrun.
  - discriminate.
  - destruct (call m) as [[x|e] m1]; [|discriminate].
    destruct (mem x used) eqn:Hmem.
    + eapply IH. exact Hrun.
    + inversion Hrun; subst. exact Hmem.
Qed.

(** A first attempt that gives an unseen value is accepted. *)
Lemma get_unique_accepts used call attempts (m m' : MakerObj T) v :
  0 < attempts -> call m = (Returned v, m') -> ~ In v used ->
  get_unique attempts used call m = (Returned v, m').
Proof.
  intros Hpos Hcall Hnew. destruct attempts as [|n]; [lia|].
  simpl. rewrite Hcall, (not_In_not_mem _ _ Hnew). reflexivity.
Qed.

(** If the wrapped call always returns a value of [V] and keeps [P], then
    [get_unique] returns a value of [V] or fails its assertion. *)
Lemma get_unique_space (V : list PyVal) (P : MakerObj T -> Prop) used call :
  (forall m, P m -> exists v m', call m = (Returned v, m') /\ In v V /\ P m') ->
  forall attempts m, P m ->
    match get_unique attempts used call m with
    | (Returned v, m') => In v V /\ P m'
    | (Raised e, m') => e = AssertionError /\ P m'
    end.
Proof.
  intros Hcall. induction attempts as [|n IH]; intros m Hm; simpl.
  - auto.
  - destruct (Hcall m Hm) as (v & m' & -> & Hv & Hm').
    destruct (mem v used); [apply IH; exact Hm' | auto].
Qed.

(** When each of the next [attempts] values of the wrapped maker has been
    seen already, [get_unique] makes exactly [attempts] calls and fails. *)
Lemma get_unique_all_seen used c : forall attempts (m : MakerObj T),
  (forall j, j < attempts ->
     exists v, fst (do_call c (after_attempts c j m)) = Returned v /\
               In v used) ->
  get_unique attempts used (do_call c) m =
    (Raised AssertionError, after_attempts c attempts m).
Proof.
  induction attempts as [|n IH]; intros m Hseen; simpl.
  - reflexivity.
  - destruct (Hseen 0) as (v & Hv & Hin); [lia|]. simpl in Hv.
    destruct (do_call c m) as [r m1] eqn:Hcall. simpl in Hv. subst r.
    rewrite (mem_In _ _ Hin). apply IH.
    intros j Hj. destruct (Hseen (S j)) as (x & Hx & Hxin); [lia|].
    simpl in Hx. rewrite Hcall in Hx. eauto.
Qed.

(** A call at the stage that enforces uniqueness, spelled out. *)
Lemma unique_stage_call c (U : MakerObj (Unique.t T)) :
  is_unique_stage (assembler (self U)) c = true ->
  do_call c U =
    let (r, m') :=
      get_unique (max_attempts (self U)) (used_values (self U)) (do_call c)
        (set_document (document U) (maker (self U))) in
    (r, {| _document := _document U;
           self := with_maker (self U) (set_document PyNone m')
                     (remember r (used_values (self U))) |}).
Proof.
  destruct c as [ | value | ]; simpl; intros Hstage; try discriminate.
  - unfold call_assemble at 1. simpl. unfold assemble.
    rewrite Hstage. unfold target.
    change (fun m : MakerObj T => call_assemble m)
      with (@call_assemble T _).
    destruct (get_unique _ _ _ _) as [r m']. reflexivity.
  - apply negb_true_iff in Hstage.
    unfold call_finish at 1. simpl. unfold finish.
    rewrite Hstage. unfold target.
    change (fun m : MakerObj T => call_finish value m)
      with (@call_finish T _ value).
    destruct (get_unique _ _ _ _) as [r m']. reflexivity.
Qed.

(** A call at the other stage goes straight to the wrapped maker. *)
Lemma unique_other_call c (U : MakerObj (Unique.t T)) :
  is_unique_stage (assembler (self U)) c = false -> c <> CallReset ->
  do_call c U =
    let (r, m') :=
      do_call c (set_document (document U) (maker (self U))) in
    (r, {| _document := _document U;
           self := with_maker (self U) (set_document PyNone m')
                     (used_values (self U)) |}).
Proof.
  destruct c as [ | value | ]; simpl; intros Hstage Hc; try congruence.
  - unfold call_assemble at 1. simpl. unfold assemble.
    rewrite Hstage. unfold target.
    destruct (call_assemble _) as [r m']. reflexivity.
  - apply negb_false_iff in Hstage.
    unfold call_finish at 1. simpl. unfold finish.
    rewrite Hstage. unfold target.
    destruct (call_finish _ _) as [r m']. reflexivity.
Qed.

(** No call changes the configuration, none lets the seen-set lose an
    excluded value, and a value the enforcing stage hands out was not in
    the seen-set. *)
Lemma unique_call_keeps c (U : MakerObj (Unique.t T)) :
  same_config (self U) (self (snd (do_call c U))) /\
  (incl (exclude (self U)) (used_values (self U)) ->
   incl (exclude (self U)) (used_values (self (snd (do_call c U))))) /\
  (forall v,
     fst (do_call c U) = Returned v ->
     is_unique_stage (assembler (self U)) c = true ->
     ~ In v (used_values (self U))).
Proof.
  destruct (is_unique_stage (assembler (self U)) c) eqn:Hstage.
  - rewrite (@unique_stage_call c U Hstage).
    destruct (get_unique _ _ _ _) as [[v|e] m'] eqn:Hget; simpl.
    + apply get_unique_fresh in Hget. apply not_mem_not_In in Hget.
      split; [repeat split|]. split.
      * intros Hincl x Hx. right. apply Hincl, Hx.
      * intros x Hx _. inversion Hx; subst. exact Hget.
    + split; [repeat split|]. split; [auto|]. intros x Hx. discriminate.
  - destruct c as [ | value | ].
    + rewrite (@unique_other_call CallAssemble U Hstage) by discriminate.
      destruct (do_call _ _) as [r m']. simpl.
      split; [repeat split|]. split; [auto|]. intros; discriminate.
    + rewrite (@unique_other_call (CallFinish value) U Hstage)
        by discriminate.
      destruct (do_call _ _) as [r m']. simpl.
      split; [repeat split|]. split; [auto|]. intros; discriminate.
    + simpl. split; [repeat split|]. split.
      * intros _ x Hx. exact Hx.
      * intros; discriminate.
Qed.

(** In any series of calls, resets included, the enforcing stage never
    hands out a value of the exclusion set. *)
Lemma unique_history_excludes : forall cs (U : MakerObj (Unique.t T)),
  incl (exclude (self U)) (used_values (self U)) ->
  Forall (fun v => ~ In v (exclude (self U)))
    (produced (assembler (self U)) (fst (run_calls cs U))).
Proof.
  induction cs as [|c cs IH]; intros U Hincl; simpl.
  - constructor.
  - destruct (unique_call_keeps c U) as ((Hex & Hmode & _) & Hkeep & Hnew).
    destruct (do_call c U) as [r U1] eqn:Hcall. simpl in *.
    specialize (IH U1). rewrite Hex, Hmode in IH.
    specialize (IH (Hkeep Hincl)).
    destruct (run_calls cs U1) as [h U2]. simpl in *.
    destruct r as [v|e]; [|exact IH].
    destruct (is_unique_stage (assembler (self U)) c) eqn:Hstage;
      [|exact IH].
    simpl. constructor; [|exact IH].
    intros Hin. apply (Hnew v eq_refl eq_refl). apply Hincl, Hin.
Qed.

Lemma produced_assembled (h : list (call * PyResult PyVal)) v :
  In (CallAssemble, Returned v) h -> In v (produced true h).
Proof.
  intros Hin. unfold produced. apply in_flat_map.
  exists (CallAssemble, Returned v). split; [exact Hin|]. simpl. auto.
Qed.

(** *** A wrapped maker with few values *)

Section Space.
Variables (V : list PyVal) (I : T -> Prop) (b : bool).
Hypothesis Hasm : forall d s, I s ->
  exists v s', _assemble d s = (Returned v, s') /\ I s' /\
               (b = true -> In v V).
Hypothesis Hfin : forall d x s, I s ->
  exists v s', _finish d x s = (Returned v, s') /\ I s' /\
               (b = false -> In v V).

Lemma wrapped_call c (m : MakerObj T) :
  c <> CallReset -> I (self m) ->
  exists v m',
    do_call c m = (Returned v, m') /\ I (self m') /\
    (is_unique_stage b c = true -> In v V).
Proof.
  intros Hc Hm. destruct c as [ | value | ]; [| |congruence]; simpl.
  - unfold call_assemble.
    destruct (Hasm (document m) Hm) as (v & s' & -> & Hs' & Hv).
    eexists. eexists. split; [reflexivity|]. auto.
  - unfold call_finish.
    destruct (Hfin (document m) value Hm) as (v & s' & -> & Hs' & Hv).
    eexists. eexists. split; [reflexivity|]. split; [exact Hs'|].
    intros Hb. apply Hv. apply negb_true_iff in Hb. exact Hb.
Qed.

(** One call on the [Unique] maker: at the enforcing stage it hands out a
    new value of [V], which joins the seen-set, or fails its assertion; at
    the other stage it returns and the seen-set stays. *)
Lemma unique_call_space c (U : MakerObj (Unique.t T)) :
  c <> CallReset -> assembler (self U) = b -> I (self (maker (self U))) ->
  let r := fst (do_call c U) in
  let U' := snd (do_call c U) in
  assembler (self U') = b /\ I (self (maker (self U'))) /\
  if is_unique_stage b c then
    (exists v,
       r = Returned v /\ In v V /\ ~ In v (used_values (self U)) /\
       used_values (self U') = v :: used_values (self U)) \/
    (r = Raised AssertionError /\
     used_values (self U') = used_values (self U))
  else
    (exists v, r = Returned v) /\
    used_values (self U') = used_values (self U).
Proof.
  intros Hc Hmode Hinit. cbv zeta.
  destruct (is_unique_stage b c) eqn:Hstage.
  - assert (Hst : is_unique_stage (assembler (self U)) c = true)
      by (rewrite Hmode; exact Hstage).
    rewrite (@unique_stage_call c U Hst).
    pose proof (get_unique_space V
                  (fun m => I (self m)) (used_values (self U)) (do_call c))
      as Hspace.
    assert (Hcall : forall m : MakerObj T, I (self m) ->
              exists v m', do_call c m = (Returned v, m') /\
                           In v V /\ I (self m')).
    { intros m Hm.
      destruct (@wrapped_call c m Hc Hm) as (v & m' & Hcall & Hm' & Hv).
      exists v, m'. auto. }
    specialize (Hspace Hcall (max_attempts (self U))
                  (set_document (document U) (maker (self U))) Hinit).
    destruct (get_unique _ _ _ _) as [[v|e] m'] eqn:Hget; simpl.
    + destruct Hspace as [Hv Hm'].
      apply get_unique_fresh in Hget. apply not_mem_not_In in Hget.
      split; [exact Hmode|]. split; [exact Hm'|]. left. eauto.
    + destruct Hspace as [-> Hm'].
      split; [exact Hmode|]. split; [exact Hm'|]. right. auto.
  - assert (Hst : is_unique_stage (assembler (self U)) c = false)
      by (rewrite Hmode; exact Hstage).
    rewrite (@unique_other_call c U Hst Hc).
    destruct (@wrapped_call c (set_document (document U) (maker (self U)))
                Hc Hinit) as (v & m' & -> & Hm' & _).
    simpl. split; [exact Hmode|]. split; [exact Hm'|]. eauto.
Qed.

(** In a series of calls without reset, the values handed out by the
    enforcing stage are distinct values of [V], new to the seen-set, and
    every call of that stage either handed one out or failed its
    assertion; no call raised anything else. *)
Lemma unique_history_space : forall cs (U : MakerObj (Unique.t T)),
  ~ In CallReset cs -> assembler (self U) = b ->
  I (self (maker (self U))) ->
  let h := fst (run_calls cs U) in
  NoDup (produced b h) /\ incl (produced b h) V /\
  (forall v, In v (produced b h) -> ~ In v (used_values (self U))) /\
  (forall e, In e (raised h) -> e = AssertionError) /\
  length (produced b h) + length (raised h) = stage_calls b cs.
Proof.
  induction cs as [|c cs IH]; intros U Hnoreset Hmode Hinit; simpl.
  - repeat split; try constructor; intros x [].
  - assert (Hc : c <> CallReset) by (intros ->; apply Hnoreset; left; auto).
    assert (Hrest : ~ In CallReset cs)
      by (intros Hin; apply Hnoreset; right; exact Hin).
    pose proof (@unique_call_space c U Hc Hmode Hinit) as Hstep.
    cbv zeta in Hstep. unfold stage_calls. simpl.
    destruct (do_call c U) as [r U1]. simpl in Hstep.
    destruct Hstep as (Hmode1 & Hinit1 & Hstep).
    specialize (IH U1 Hrest Hmode1 Hinit1). cbv zeta in IH.
    destruct (run_calls cs U1) as [h U2]. simpl in *.
    destruct IH as (Hnd & Hincl & Hnew & Hexn & Hcount).
    unfold stage_calls in Hcount.
    destruct (is_unique_stage b c) eqn:Hstage.
    + destruct Hstep as [(v & -> & Hv & Hfresh & Hused) | (-> & Hused)];
        simpl; rewrite ?Hstage; rewrite Hused in Hnew; simpl.
      * split; [|split; [|split; [|split]]].
        -- constructor; [|exact Hnd].
           intros Hin. apply (Hnew v Hin). left. reflexivity.
        -- intros x [<- | Hx]; [exact Hv | apply Hincl, Hx].
        -- intros x [<- | Hx]; [exact Hfresh|].
           intros Hin. apply (Hnew x Hx). right. exact Hin.
        -- exact Hexn.
        -- lia.
      * split; [exact Hnd|]. split; [exact Hincl|]. split; [exact Hnew|].
        split; [intros e [<- | He]; auto | lia].
    + destruct Hstep as ((v & ->) & Hused). rewrite Hused in Hnew.
      simpl. repeat split; auto.
Qed.

(** One draw [_finish(_assemble())]: it returns and one new value of [V]
    has joined the seen-set, or it fails the assertion and the seen-set is
    as before. *)
Lemma unique_produce_step (U : MakerObj (Unique.t T)) :
  assembler (self U) = b -> I (self (maker (self U))) ->
  let r := fst (produce U) in
  let U' := snd (produce U) in
  assembler (self U') = b /\ I (self (maker (self U'))) /\
  ((exists x v,
      r = Returned x /\ In v V /\ ~ In v (used_values (self U)) /\
      used_values (self U') = v :: used_values (self U)) \/
   (r = Raised AssertionError /\
    used_values (self U') = used_values (self U))).
Proof.
  intros Hmode Hinit. cbv zeta. unfold produce.
  assert (Hca : CallAssemble <> CallReset) by discriminate.
  pose proof (@unique_call_space CallAssemble U Hca Hmode Hinit) as Ha.
  cbv zeta in Ha. simpl in Ha.
  destruct (call_assemble U) as [[a|e] U1]; simpl in Ha;
    destruct Ha as (Hmode1 & Hinit1 & Ha).
  - assert (Hcf : CallFinish a <> CallReset) by discriminate.
    pose proof (@unique_call_space (CallFinish a) U1 Hcf Hmode1 Hinit1)
      as Hf.
    cbv zeta in Hf. simpl in Hf.
    destruct (call_finish a U1) as [rf U2]; simpl in Hf |- *.
    destruct Hf as (Hmode2 & Hinit2 & Hf).
    split; [exact Hmode2|]. split; [exact Hinit2|].
    destruct b; simpl in Ha, Hf.
    + destruct Hf as ((x & ->) & Hu2). rewrite Hu2.
      destruct Ha as [(v & _ & Hv & Hfresh & Hu1) | (Hv & _)];
        [|discriminate].
      left. exists x, v. auto.
    + destruct Ha as (_ & Hu1). rewrite Hu1 in Hf.
      destruct Hf as [(v & -> & Hv & Hfresh & Hu2) | (-> & Hu2)].
      * left. exists v, v. auto.
      * right. auto.
  - split; [exact Hmode1|]. split; [exact Hinit1|].
    destruct b; simpl in Ha.
    + destruct Ha as [(v & Hv & _) | (Hv & Hu1)]; [discriminate|].
      right. auto.
    + destruct Ha as ((v & Hv) & _). discriminate.
Qed.

(** The loop of [test_unique], [_finish(_assemble())] over and over: the
    seen-set grows by one new value of [V] per finished value, and the
    loop stops only on the failed assertion. *)
Lemma unique_produce_n : forall k (U : MakerObj (Unique.t T)),
  assembler (self U) = b -> I (self (maker (self U))) ->
  exists new,
    NoDup new /\ incl new V /\
    (forall v, In v new -> ~ In v (used_values (self U))) /\
    length new = length (fst (fst (produce_n k U))) /\
    (snd (fst (produce_n k U)) = None /\
     length (fst (fst (produce_n k U))) = k \/
     snd (fst (produce_n k U)) = Some AssertionError).
Proof.
  induction k as [|k IH]; intros U Hmode Hinit; simpl.
  - exists []. split; [constructor|]. split; [intros v []|].
    split; [intros v []|]. split; [reflexivity|]. left. auto.
  - pose proof (unique_produce_step U Hmode Hinit) as Hstep.
    cbv zeta in Hstep.
    destruct (produce U) as [r U1]. simpl in Hstep.
    destruct Hstep as (Hmode1 & Hinit1 & Hstep).
    destruct Hstep as [(x & v & -> & Hv & Hfresh & Hused) | (-> & Hused)].
    + destruct (IH U1 Hmode1 Hinit1)
        as (new & Hnd & Hincl & Hnew & Hlen & Hend).
      destruct (produce_n k U1) as [[xs e] U2]. simpl in *.
      rewrite Hused in Hnew.
      exists (v :: new). split; [|split; [|split; [|split]]].
      * constructor; [|exact Hnd].
        intros Hin. apply (Hnew v Hin). left. reflexivity.
      * intros y [<- | Hy]; [exact Hv | apply Hincl, Hy].
      * intros y [<- | Hy]; [exact Hfresh|].
        intros Hin. apply (Hnew y Hy). right. exact Hin.
      * simpl. lia.
      * destruct Hend as [[-> Hk] | ->];
          [left; split; [reflexivity | lia] | right; reflexivity].
    + exists []. simpl. split; [constructor|]. split; [intros v []|].
      split; [intros v []|]. split; [reflexivity|]. right. reflexivity.
Qed.
End Space.

(** C3: let the wrapped maker never raise and, at the stage where the
    [Unique] maker enforces uniqueness (assembly or finishing, by its
    [assembler] flag), only give values of [V].  Then in any series of
    assemble and finish calls at most [|V|] calls of that stage hand out a
    value, they hand out distinct ones, and every other call of that stage
    raises [AssertionError] to the caller, so the loop
    [_finish(_assemble())] run more than [|V|] times ends in that error.
    A call fails in this way exactly after [max_attempts] calls of the
    wrapped maker when each of them gave a value seen before.  [reset()]
    forgets the values handed out, after which the wrapped maker's next
    value is accepted at once, handed out before or not. *)
Theorem unique_exhaustion (V : list PyVal) (I : T -> Prop)
    (U : MakerObj (Unique.t T))
    (Hinit : I (self (maker (self U))))
    (Hasm : forall d s, I s ->
       exists v s', _assemble d s = (Returned v, s') /\ I s' /\
                    (assembler (self U) = true -> In v V))
    (Hfin : forall d x s, I s ->
       exists v s', _finish d x s = (Returned v, s') /\ I s' /\
                    (assembler (self U) = false -> In v V)) :
  let b := assembler (self U) in
  let inner := set_document (document U) (maker (self U)) in
  (forall cs, ~ In CallReset cs ->
     let h := fst (run_calls cs U) in
     length (produced b h) <= length V /\
     NoDup (produced b h) /\
     (forall e, In e (raised h) -> e = AssertionError) /\
     length (produced b h) + length (raised h) = stage_calls b cs) /\
  (forall k, length V < k ->
     exists vs U',
       produce_n k U = (vs, Some AssertionError, U') /\
       length vs <= length V) /\
  (forall c,
     is_unique_stage b c = true ->
     (forall j, j < max_attempts (self U) ->
        exists v,
          fst (do_call c (after_attempts c j inner)) = Returned v /\
          In v (used_values (self U))) ->
     fst (do_call c U) = Raised AssertionError /\
     maker (self (snd (do_call c U))) =
       set_document PyNone (after_attempts c (max_attempts (self U)) inner)) /\
  used_values (self (call_reset U)) = exclude (self U) /\
  (0 < max_attempts (self U) ->
   forall c v m',
     is_unique_stage b c = true ->
     do_call c inner = (Returned v, m') ->
     ~ In v (exclude (self U)) ->
     fst (do_call c (call_reset U)) = Returned v).
Proof.
  intros b inner. subst b inner.
  split; [|split; [|split; [|split]]].
  - intros cs Hnoreset.
    destruct (unique_history_space V I Hasm Hfin cs U Hnoreset eq_refl Hinit)
      as (Hnd & Hincl & _ & Hexn & Hcount).
    cbv zeta. split; [apply NoDup_incl_length; assumption|]. auto.
  - intros k Hk.
    destruct (unique_produce_n V I Hasm Hfin k U eq_refl Hinit)
      as (new & Hnd & Hincl & _ & Hlen & Hend).
    pose proof (NoDup_incl_length Hnd Hincl) as Hbound.
    destruct (produce_n k U) as [[vs e] U']. simpl in *.
    destruct Hend as [[_ Hfull] | ->]; [lia|].
    exists vs, U'. split; [reflexivity | lia].
  - intros c Hstage Hseen.
    rewrite (@unique_stage_call c U Hstage).
    rewrite (@get_unique_all_seen _ c _ _ Hseen). split; reflexivity.
  - reflexivity.
  - intros Hpos c v m' Hstage Hcall Hnew.
    assert (Hstage' : is_unique_stage (assembler (self (call_reset U))) c =
                      true) by exact Hstage.
    rewrite (@unique_stage_call c (call_reset U) Hstage').
    change (max_attempts (self (call_reset U))) with (max_attempts (self U)).
    change (used_values (self (call_reset U))) with (exclude (self U)).
    change (maker (self (call_reset U))) with (maker (self U)).
    change (document (call_reset U)) with (document U).
    rewrite (@get_unique_accepts _ (do_call c) _ _ _ _ Hpos Hcall Hnew).
    reflexivity.
Qed.
End UniqueProps.

(** C8: in any series of assemble, finish and reset calls on
    [Unique(Sequence('test-{index}'), exclude={'test-3'})], wherever the
    numbering starts and whatever the attempt ceiling, no assemble call
    returns ['test-3'].  In general a [Unique] maker built with an
    exclusion set never hands out one of the excluded values at the stage
    where it enforces uniqueness, whatever the wrapped maker is and however
    the calls and resets are interleaved. *)
Theorem unique_excludes :
  (forall start_from attempts cs,
     ~ In (CallAssemble, Returned (PyStr "test-3"))
          (fst (run_calls cs
                  (Examples.unique_sequence start_from attempts)))) /\
  (forall (T : Type) (MT : Maker T) (inner : MakerObj T)
          (exclude : list PyVal) (assembler : bool) (attempts : nat)
          (cs : list call),
     Forall (fun v => ~ In v exclude)
       (Unique.produced assembler
          (fst (run_calls cs
                  (Unique.make inner exclude assembler attempts))))).
Proof.
  assert (Hgen : forall (T : Type) (MT : Maker T) (inner : MakerObj T)
            (exclude : list PyVal) (assembler : bool) (attempts : nat)
            (cs : list call),
            Forall (fun v => ~ In v exclude)
              (Unique.produced assembler
                 (fst (run_calls cs
                         (Unique.make inner exclude assembler attempts))))).
  { intros T MT inner exclude assembler attempts cs.
    apply (unique_history_excludes cs
             (Unique.make inner exclude assembler attempts)).
    simpl. apply incl_refl. }
  split; [|exact Hgen].
  intros start_from attempts cs Hin.
  apply produced_assembled in Hin.
  pose proof (Hgen _ _ (Sequence.make "test-{index}" start_from)
                [PyStr "test-3"] true attempts cs) as Hall.
  rewrite Forall_forall in Hall.
  apply (Hall _ Hin). left. reflexivity.
Qed.

(** [test_unique]: once [Unique(Static('foo'))] has given 'foo', the loop
    [_finish(_assemble())] fails, whether uniqueness is enforced when
    assembling or when finishing; after [reset()] 'foo' is given again. *)
Lemma unique_exhaustion_witness :
  let U := snd (produce (Examples.unique_static 1000)) in
  let F := snd (produce (Examples.unique_static_finishing 1000)) in
  (Unique.used_values (self U) = [PyStr "foo"] /\
   (exists vs U',
      produce_n 2 U = (vs, Some AssertionError, U') /\ length vs <= 1) /\
   fst (call_assemble (call_reset U)) = Returned (PyStr "foo")) /\
  (Unique.used_values (self F) = [PyStr "foo"] /\
   (exists vs F',
      produce_n 2 F = (vs, Some AssertionError, F') /\ length vs <= 1) /\
   fst (call_finish PyNone (call_reset F)) = Returned (PyStr "foo")).
Proof.
  set (I := fun s : Static.t =>
              Static.value s = PyStr "foo" /\ Static.assembler s = true).
  assert (Hasm : forall b : bool, forall d s, I s ->
            exists v s', _assemble d s = (Returned v, s') /\ I s' /\
                         (b = true -> In v [PyStr "foo"])).
  { intros b d s [Hv Ha]. exists (PyStr "foo"), s. simpl. rewrite Hv, Ha.
    split; [reflexivity|]. split; [split; assumption|].
    intros _. left. reflexivity. }
  assert (Hfin : forall b : bool, forall d x s, I s ->
            exists v s', _finish d x s = (Returned v, s') /\ I s' /\
                         (b = false -> In v [PyStr "foo"])).
  { intros b d x s [Hv Ha]. exists (PyStr "foo"), s. simpl. rewrite Hv.
    split; [reflexivity|]. split; [split; assumption|].
    intros _. left. reflexivity. }
  intros U F. split.
  - assert (Hinit : I (self (Unique.maker (self U))))
      by (split; reflexivity).
    destruct (@unique_exhaustion Static.t _ [PyStr "foo"] I U Hinit
                (Hasm _) (Hfin _)) as (_ & Hrun & _ & _ & Hreset).
    split; [reflexivity|]. split.
    + apply (Hrun 2). simpl. lia.
    + assert (Hpos : 0 < Unique.max_attempts (self U)) by (simpl; lia).
      apply (Hreset Hpos CallAssemble (PyStr "foo")
               (set_document (document U) (Unique.maker (self U)))).
      * reflexivity.
      * reflexivity.
      * intros [].
  - assert (Hinit : I (self (Unique.maker (self F))))
      by (split; reflexivity).
    destruct (@unique_exhaustion Static.t _ [PyStr "foo"] I F Hinit
                (Hasm _) (Hfin _)) as (_ & Hrun & _ & _ & Hreset).
    split; [reflexivity|]. split.
    + apply (Hrun 2). simpl. lia.
    + assert (Hpos : 0 < Unique.max_attempts (self F)) by (simpl; lia).
      apply (Hreset Hpos (CallFinish PyNone) (PyStr "foo")
               (set_document (document F) (Unique.maker (self F)))).
      * reflexivity.
      * reflexivity.
      * intros [].
Defined.

(** [test_unique] with [assembler=False]: assembling never fails, the
    second finish does. *)
Example unique_finishing_mode :
  let U := Examples.unique_static_finishing 1000 in
  fst (assemble_n 3 U) =
    ([PyStr "foo"; PyStr "foo"; PyStr "foo"]%string, None) /\
  fst (produce_n 2 U) = ([PyStr "foo"]%string, Some AssertionError) /\
  fst (call_finish (PyStr "foo") (snd (produce U))) = Raised AssertionError.
Proof. vm_compute. repeat split. Qed.

(** Two values, a reset, then three more: after the reset the sequence
    stands at 3, and 'test-3' is skipped all the same. *)
Lemma unique_excludes_witness :
  let cs := [CallAssemble; CallAssemble; CallReset;
             CallAssemble; CallAssemble; CallAssemble] in
  let h := fst (run_calls cs (Examples.unique_sequence 1 1000)) in
  h = [(CallAssemble, Returned (PyStr "test-1"));
       (CallAssemble, Returned (PyStr "test-2"));
       (CallReset, Returned PyNone);
       (CallAssemble, Returned (PyStr "test-4"));
       (CallAssemble, Returned (PyStr "test-5"));
       (CallAssemble, Returned (PyStr "test-6"))] /\
  ~ In (CallAssemble, Returned (PyStr "test-3")) h.
Proof.
  intros cs h. split.
  - vm_compute. reflexivity.
  - exact (proj1 unique_excludes 1%Z 1000 cs).
Defined.

(** [test_unique]: nine values drawn from
    [Unique(Sequence('test-{index}'), exclude={'test-3'})]. *)
Example unique_sequence_skips_3 :
  fst (fst (assemble_n 9 (Examples.unique_sequence 1 1000))) =
    map PyStr ["test-1"; "test-2"; "test-4"; "test-5"; "test-6"; "test-7";
               "test-8"; "test-9"; "test-10"]%string.
Proof. vm_compute. reflexivity. Qed.

(** ** The checks of [test_makers.py] *)

Example test_maker :
  let doc := PyDict [("foo"%string, PyStr "bar")] in
  let maker := new tt in
  let inside :=
    target maker doc (fun m => (Returned (pyval_eqb (document m) doc), m)) in
  fst inside = Returned true /\ document (snd inside) = PyNone.
Proof. split; reflexivity. Qed.

Example test_static :
  let value := PyDict [("foo"%string, PyStr "bar")] in
  (fst (call_assemble (Static.make value true)) = Returned value /\
   fst (call_finish value (Static.make value true)) = Returned value) /\
  (fst (call_assemble (Static.make value false)) = Returned PyNone /\
   fst (call_finish PyNone (Static.make value false)) = Returned value).
Proof. repeat split. Qed.

Example test_lambda :
  let one := Lambda.make (Lambda.const1 (PyStr "foo")) true false in
  fst (call_assemble one) = Returned (PyStr "foo") /\
  fst (call_finish (PyStr "foo") one) = Returned (PyStr "foo").
Proof. split; reflexivity. Qed.

Example test_list_of :
  let idx := map Cycle.assembled in
  let maker := Examples.list_of_cycle false in
  fst (call_assemble maker) = Returned (PyList (idx [0; 1; 2; 3; 4; 0])) /\
  fst (call_finish (PyList (idx [0; 1; 2; 3; 4; 0]))
         (snd (call_assemble maker))) =
    Returned (PyList (map PyStr ["a"; "b"; "c"; "d"; "e"; "a"]%string)) /\
  fst (call_assemble (snd (call_assemble maker))) =
    Returned (PyList (idx [1; 2; 3; 4; 0; 1])).
Proof. repeat split. Qed.

End MakerProps.

(** * Runs of the factory: failures, empty input, composition *)

Module FactoryRuns.
Import Factory FactoryProps.

Section Runs.
Variable C : Collaborators.
Implicit Types (w : World C) (self : Factory C).

(** Every run of [finish]: the reset raised; or the reset returned and the
    documents were finished one by one until the end or the first raise. *)
Lemma finish_shape self bp docs w r w' :
  finish self bp docs w = (r, w') ->
  (exists e, r = Raised e /\ trace w' = trace w ++ [EvReset bp (Raised e)]) \/
  (exists out,
     match r with
     | Returned finished =>
         finished = out /\ length out = length docs /\
         trace w' =
           trace w ++ EvReset bp (Returned tt) ::
           finished_events self bp docs out
     | Raised e =>
         exists d,
           nth_error docs (length out) = Some d /\
           trace w' =
             trace w ++ EvReset bp (Returned tt) ::
             finished_events self bp docs out ++
             [EvFinish bp d (presets self) (Raised e)]
     end).
Proof.
  unfold finish, finished_events. unfold bind at 1.
  destruct (invoke _ _ w) as [[[]|e0] w1] eqn:Hr; intros H;
    apply invoke_run in Hr as [_ Ht1].
  - right.
    apply (collect_loop
             (fun d => blueprint_finish C bp d (presets self))
             (fun d => EvFinish bp d (presets self))) in H as (out & Hout).
    exists out. destruct r as [finished|e].
    + destruct Hout as (-> & Hlen & Htr). simpl.
      rewrite Htr, Ht1, <- app_assoc. auto.
    + destruct Hout as (d & Hnth & Htr). exists d.
      rewrite Htr, Ht1, <- app_assoc. auto.
  - left. inversion H; subst r w'. eauto.
Qed.

Lemma finished_events_only self bp docs (out : list (Document C)) e :
  In e (finished_events self bp docs out) ->
  is_reset e = false /\ is_storage e = false /\ is_assemble e = false.
Proof.
  unfold finished_events. intros He.
  apply (loop_events_in (fun d => EvFinish bp d (presets self))) in He
    as (x & r & ->).
  auto.
Qed.

Lemma count_none3 (evs : list (Event C)) :
  (forall e, In e evs ->
     is_reset e = false /\ is_storage e = false /\ is_assemble e = false) ->
  count (@is_reset C) evs = 0 /\
  count (@is_storage C) evs = 0 /\
  count (@is_assemble C) evs = 0.
Proof.
  intros Hall.
  repeat split; apply count_none; intros e He; apply Hall in He; tauto.
Qed.

(** X1: [Factory.finish] resets the blueprint exactly once, first, and
    calls neither [blueprint.assemble] nor anything of the frame class or
    the signals.  When it returns, there is one finished document per input
    document, the i-th being what [blueprint.finish(documents[i], presets)]
    returned, the calls having been made in list order. *)
Theorem finish_spec self bp docs w r w'
    (Hrun : finish self bp docs w = (r, w')) :
  exists r0 evs,
    trace w' = trace w ++ EvReset bp r0 :: evs /\
    (count (@is_reset C) evs = 0 /\
     count (@is_storage C) evs = 0 /\
     count (@is_assemble C) evs = 0) /\
    match r with
    | Returned finished =>
        r0 = Returned tt /\
        length finished = length docs /\
        evs = finished_events self bp docs finished
    | Raised e => propagated e (trace w')
    end.
Proof.
  pose proof (finish_raised self bp docs w) as Hraised.
  destruct (finish_shape _ _ _ _ Hrun) as [(e & -> & Htr) | (out & Hout)].
  - exists (Raised e), []. split; [exact Htr|]. split.
    + apply count_none3. intros ev [].
    + eapply Hraised. exact Hrun.
  - destruct r as [finished|e].
    + destruct Hout as (-> & Hlen & Htr).
      exists (Returned tt), (finished_events self bp docs out).
      split; [exact Htr|]. split; [|auto].
      apply count_none3. intros ev Hev.
      eapply finished_events_only. exact Hev.
    + destruct Hout as (d & Hnth & Htr).
      exists (Returned tt),
        (finished_events self bp docs out ++
         [EvFinish bp d (presets self) (Raised e)]).
      split; [exact Htr|]. split.
      * apply count_none3. intros ev Hev.
        apply in_app_or in Hev as [Hev | [<- | []]].
        -- eapply finished_events_only. exact Hev.
        -- auto.
      * eapply Hraised. exact Hrun.
Qed.

(** X2: when [Factory.finish] raises, either [blueprint.reset()] raised and
    no document was touched, or [blueprint.finish] raised on some document
    [documents[k]]: the [k] documents before it were finished, in order, and
    the ones after it were never passed to the blueprint. *)
Theorem finish_stops_at_first_failure self bp docs w e w'
    (Hrun : finish self bp docs w = (Raised e, w')) :
  trace w' = trace w ++ [EvReset bp (Raised e)] \/
  exists out d,
    length out < length docs /\
    nth_error docs (length out) = Some d /\
    trace w' =
      trace w ++ EvReset bp (Returned tt) ::
      finished_events self bp (firstn (length out) docs) out ++
      [EvFinish bp d (presets self) (Raised e)].
Proof.
  destruct (finish_shape _ _ _ _ Hrun) as [(e' & Heq & Htr) | (out & Hout)].
  - left. inversion Heq; subst e'. exact Htr.
  - right. destruct Hout as (d & Hnth & Htr). exists out, d.
    assert (Hlt : length out < length docs).
    { apply nth_error_Some. rewrite Hnth. discriminate. }
    repeat split; auto.
    rewrite Htr. unfold finished_events.
    rewrite (combine_firstn_r docs out). reflexivity.
Qed.

Lemma map_combine_snd_le X A B (g : A -> B) (xs : list X) :
  forall ds, length ds <= length xs ->
    map (fun xd : X * A => g (snd xd)) (combine xs ds) = map g ds.
Proof.
  induction xs as [|x xs IH]; intros [|d ds] Hlen; simpl in *;
    try lia; auto.
  rewrite IH by lia. reflexivity.
Qed.

(** X3: when [Factory.assemble] raises, one of three things happened:
    [blueprint.reset()] raised and nothing else was called; or the reset
    returned and [int(quota)] raised, so the blueprint is left reset with
    no document assembled; or some [blueprint.assemble] call raised after
    fewer than [int(quota)] calls had returned, and no call followed it. *)
Theorem assemble_stops_at_first_failure self bp q w e w'
    (Hrun : assemble self bp q w = (Raised e, w')) :
  trace w' = trace w ++ [EvReset bp (Raised e)] \/
  trace w' = trace w ++ [EvReset bp (Returned tt); EvInt q (Raised e)] \/
  exists n out,
    (Z.of_nat (length out) < n)%Z /\
    trace w' =
      trace w ++ EvReset bp (Returned tt) :: EvInt q (Returned n) ::
      assembled_events self bp out ++
      [EvAssemble bp (presets self) (Raised e)].
Proof.
  unfold assemble in Hrun. unfold bind at 1 in Hrun.
  destruct (invoke _ _ w) as [[[]|e0] w1] eqn:Hr;
    apply invoke_run in Hr as [_ Ht1].
  - unfold bind at 1 in Hrun.
    destruct (invoke _ _ w1) as [[n|e1] w2] eqn:Hi;
      apply invoke_run in Hi as [_ Ht2].
    + right. right.
      apply (collect_loop
               (fun _ : Z => blueprint_assemble C bp (presets self))
               (fun _ : Z => EvAssemble bp (presets self))) in Hrun
        as (out & x & Hnth & Htr).
      assert (Hlt : length out < Z.to_nat n).
      { assert (Hsome : nth_error (range 0 n) (length out) <> None)
          by (rewrite Hnth; discriminate).
        apply nth_error_Some in Hsome. rewrite range_length in Hsome.
        replace (n - 0)%Z with n in Hsome by lia. exact Hsome. }
      exists n, out. split; [lia|].
      rewrite Htr, Ht2, Ht1, <- !app_assoc. simpl.
      unfold assembled_events.
      rewrite (map_combine_snd_le
                 (fun d => EvAssemble bp (presets self) (Returned d))).
      * reflexivity.
      * rewrite range_length. lia.
    + right. left. inversion Hrun; subst. rewrite Ht2, Ht1, <- app_assoc.
      reflexivity.
  - left. inversion Hrun; subst. exact Ht1.
Qed.

(** X4: every run of [Factory.populate] is [finish] followed by a prefix of
    four calls, cut at the first one that raises: [_ensure_frames] on the
    finished documents, the 'factory_insert' signal with the frames it
    returned, [insert_many] on those same frames, and the 'factory_inserted'
    signal with the frames [insert_many] returned.  If [finish] raises,
    none of the four is made; [populate] raises exactly the exception of
    the call at which it stopped. *)
Theorem populate_stops_at_first_failure self bp docs w r w'
    (Hrun : populate self bp docs w = (r, w')) :
  let cls := frame_cls C bp in
  let pre := EvSend "factory_insert" cls in
  let post := EvSend "factory_inserted" cls in
  exists rf w1 tail,
    finish self bp docs w = (rf, w1) /\
    trace w' = trace w1 ++ tail /\
    match rf with
    | Raised e => r = Raised e /\ tail = []
    | Returned fin =>
        (exists e,
           r = Raised e /\ tail = [EvEnsureFrames cls fin (Raised e)]) \/
        exists frames,
          (exists e,
             r = Raised e /\
             tail = [EvEnsureFrames cls fin (Returned frames);
                     pre frames (Raised e)]) \/
          (exists e,
             r = Raised e /\
             tail = [EvEnsureFrames cls fin (Returned frames);
                     pre frames (Returned tt);
                     EvInsertMany cls frames (Raised e)]) \/
          exists inserted,
            (exists e,
               r = Raised e /\
               tail = [EvEnsureFrames cls fin (Returned frames);
                       pre frames (Returned tt);
                       EvInsertMany cls frames (Returned inserted);
                       post inserted (Raised e)]) \/
            (r = Returned None /\
             tail = [EvEnsureFrames cls fin (Returned frames);
                     pre frames (Returned tt);
                     EvInsertMany cls frames (Returned inserted);
                     post inserted (Returned tt)])
    end.
Proof.
  intros cls pre post. subst cls pre post.
  unfold populate in Hrun. unfold bind at 1 in Hrun.
  destruct (finish self bp docs w) as [[fin|e0] w1] eqn:Hfin.
  2:{ inversion Hrun; subst. exists (Raised e0), w', [].
      rewrite app_nil_r. auto. }
  exists (Returned fin), w1.
  unfold bind at 1 in Hrun.
  destruct (invoke _ _ w1) as [[frames|e1] w2] eqn:H1;
    apply invoke_run in H1 as [_ Ht1].
  2:{ inversion Hrun; subst. eexists. split; [reflexivity|].
      split; [exact Ht1|]. left. eauto. }
  unfold bind at 1 in Hrun.
  destruct (invoke _ _ w2) as [[[]|e2] w3] eqn:H2;
    apply invoke_run in H2 as [_ Ht2].
  2:{ inversion Hrun; subst. eexists. split; [reflexivity|]. split.
      - rewrite Ht2, Ht1, <- app_assoc. reflexivity.
      - right. exists frames. left. eauto. }
  unfold bind at 1 in Hrun.
  destruct (invoke _ _ w3) as [[inserted|e3] w4] eqn:H3;
    apply invoke_run in H3 as [_ Ht3].
  2:{ inversion Hrun; subst. eexists. split; [reflexivity|]. split.
      - rewrite Ht3, Ht2, Ht1, <- !app_assoc. reflexivity.
      - right. exists frames. right. left. eauto. }
  unfold bind at 1 in Hrun.
  destruct (invoke _ _ w4) as [[[]|e4] w5] eqn:H4;
    apply invoke_run in H4 as [_ Ht4].
  2:{ inversion Hrun; subst. eexists. split; [reflexivity|]. split.
      - rewrite Ht4, Ht3, Ht2, Ht1, <- !app_assoc. reflexivity.
      - right. exists frames. right. right. exists inserted. left. eauto. }
  unfold ret in Hrun. inversion Hrun; subst.
  eexists. split; [reflexivity|]. split.
  - rewrite Ht4, Ht3, Ht2, Ht1, <- !app_assoc. reflexivity.
  - right. exists frames. right. right. exists inserted. right. auto.
Qed.

(** X5: an empty list of documents is no special case.  [finish] still
    resets the blueprint and returns the empty list, and [populate] still
    converts the empty list with [_ensure_frames], sends both signals and
    calls [insert_many] with whatever [_ensure_frames] made of it. *)
Theorem populate_empty self bp w e1 frames e2 e3 inserted e4 e5
    (Hreset : blueprint_reset C bp (env w) = (Returned tt, e1))
    (Hens : _ensure_frames C (frame_cls C bp) [] e1 = (Returned frames, e2))
    (Hpre : signal_send C "factory_insert" (frame_cls C bp) frames e2 =
              (Returned tt, e3))
    (Hins : insert_many C (frame_cls C bp) frames e3 =
              (Returned inserted, e4))
    (Hpost : signal_send C "factory_inserted" (frame_cls C bp) inserted e4 =
               (Returned tt, e5)) :
  let cls := frame_cls C bp in
  finish self bp [] w =
    (Returned [],
     {| env := e1; trace := trace w ++ [EvReset bp (Returned tt)] |}) /\
  populate self bp [] w =
    (Returned None,
     {| env := e5;
        trace := trace w ++
                 [EvReset bp (Returned tt);
                  EvEnsureFrames cls [] (Returned frames);
                  EvSend "factory_insert" cls frames (Returned tt);
                  EvInsertMany cls frames (Returned inserted);
                  EvSend "factory_inserted" cls inserted (Returned tt)] |}).
Proof.
  intros cls. subst cls.
  assert (Hfin : finish self bp [] w =
            (Returned [],
             {| env := e1; trace := trace w ++ [EvReset bp (Returned tt)] |})).
  { unfold finish, bind, invoke. rewrite Hreset. reflexivity. }
  split; [exact Hfin|].
  unfold populate. unfold bind at 1. rewrite Hfin.
  unfold bind, invoke. simpl. rewrite Hens. simpl. rewrite Hpre. simpl.
  rewrite Hins. simpl. rewrite Hpost. simpl.
  rewrite <- !app_assoc. reflexivity.
Qed.

(** X6: finishing what was just assembled.  If [assemble(blueprint, quota)]
    returns [docs] and [finish(blueprint, docs)] then returns [fin], there
    are as many finished documents as [max(0, int(quota))], and the
    blueprint was reset twice: once before the first assemble call and once
    more after the last one, before the first finish call. *)
Theorem finish_after_assemble self bp q w docs w1 fin w2
    (Hasm : assemble self bp q w = (Returned docs, w1))
    (Hfin : finish self bp docs w1 = (Returned fin, w2)) :
  exists n,
    Z.of_nat (length fin) = Z.max 0 n /\
    length fin = length docs /\
    trace w2 =
      trace w ++
      (EvReset bp (Returned tt) :: EvInt q (Returned n) ::
       assembled_events self bp docs) ++
      (EvReset bp (Returned tt) :: finished_events self bp docs fin).
Proof.
  apply assemble_returned in Hasm as (n & Htr1 & Hlen1).
  destruct (finish_shape _ _ _ _ Hfin) as [(e & Heq & _) | (out & Hout)];
    [discriminate|].
  destruct Hout as (<- & Hlen2 & Htr2).
  exists n. split; [lia|]. split; [exact Hlen2|].
  rewrite Htr2, Htr1, <- app_assoc. reflexivity.
Qed.
(** *** Longer input, same beginning *)

Lemma for_each_app X A (body : A -> X -> M C A) (xs ys : list X) :
  forall acc w,
    for_each (xs ++ ys) body acc w =
    bind (for_each xs body acc) (for_each ys body) w.
Proof.
  induction xs as [|x xs IH]; intros acc w; simpl.
  - reflexivity.
  - unfold bind. destruct (body acc x w) as [[a|e] w1].
    + rewrite IH. reflexivity.
    + reflexivity.
Qed.

(** A collecting loop reads the environment only: what it returns and the
    environment it leaves do not depend on the trace it started with. *)
Lemma collect_loop_env X A (f : X -> Env C -> Result (Exn C) A * Env C)
    (ev : X -> Result (Exn C) A -> Event C) (xs : list X) :
  forall acc w1 w2,
    env w1 = env w2 ->
    let loop :=
      for_each xs
        (fun acc x => bind (invoke (f x) (ev x)) (fun d => ret (acc ++ [d])))
        acc in
    fst (loop w1) = fst (loop w2) /\ env (snd (loop w1)) = env (snd (loop w2)).
Proof.
  induction xs as [|x xs IH]; intros acc w1 w2 Henv; cbn [for_each].
  - auto.
  - cbv zeta. unfold bind, invoke, ret.
    rewrite Henv. destruct (f x (env w2)) as [[d|e] e']; cbn [fst snd env].
    + apply (IH (acc ++ [d])). reflexivity.
    + auto.
Qed.

(** Splitting a collecting loop that returned. *)
Lemma collect_loop_split X A (f : X -> Env C -> Result (Exn C) A * Env C)
    (ev : X -> Result (Exn C) A -> Event C) (xs ys : list X) w out w' :
  let body := fun acc x =>
    bind (invoke (f x) (ev x)) (fun d => ret (acc ++ [d])) in
  for_each (xs ++ ys) body [] w = (Returned out, w') ->
  exists wm,
    for_each xs body [] w = (Returned (firstn (length xs) out), wm) /\
    for_each ys body (firstn (length xs) out) wm = (Returned out, w').
Proof.
  intros body Hrun. rewrite for_each_app in Hrun.
  apply bind_returned in Hrun as (out1 & wm & H1 & H2).
  pose proof H1 as H1'. pose proof H2 as H2'.
  apply (collect_loop f ev) in H1' as (ds1 & Ho1 & Hlen1 & _).
  apply (collect_loop f ev) in H2' as (ds2 & Ho2 & _ & _).
  simpl in Ho1. subst out1 out.
  rewrite firstn_app, Hlen1, Nat.sub_diag, firstn_all2 by lia.
  simpl. rewrite app_nil_r. eauto.
Qed.

Lemma range_split n1 n2 :
  (n1 <= n2)%Z ->
  exists rest, range 0 n2 = range 0 n1 ++ rest.
Proof.
  intros Hle. unfold range.
  replace (Z.to_nat (n2 - 0))
    with (Z.to_nat (n1 - 0) + (Z.to_nat (n2 - 0) - Z.to_nat (n1 - 0)))
    by lia.
  rewrite seq_app, map_app. eauto.
Qed.

(** X7: documents that precede others are finished the same way with or
    without them: if [finish(blueprint, docs1 + docs2)] returns [fin], then
    from the same state [finish(blueprint, docs1)] returns the first
    [len(docs1)] elements of [fin]. *)
Theorem finish_prefix self bp docs1 docs2 w fin w'
    (Hrun : finish self bp (docs1 ++ docs2) w = (Returned fin, w')) :
  exists w1,
    finish self bp docs1 w = (Returned (firstn (length docs1) fin), w1).
Proof.
  unfold finish in *. unfold bind at 1 in Hrun. unfold bind at 1.
  destruct (invoke _ _ w) as [[[]|e0] w0]; [|discriminate].
  apply (collect_loop_split
           (fun d => blueprint_finish C bp d (presets self))
           (fun d => EvFinish bp d (presets self))) in Hrun
    as (wm & H1 & _).
  exists wm. exact H1.
Qed.

(** X8: a larger quota only adds documents at the end.  From one state,
    with [int()] of the two quotas leaving the same environment, if
    [assemble(blueprint, q2)] returns [docs2] and [int(q1) <= int(q2)],
    then [assemble(blueprint, q1)] returns the first [max(0, int(q1))]
    elements of [docs2]. *)
Theorem assemble_prefix self bp q1 q2 w e1 n1 n2 e2 docs2 w2
    (Hreset : blueprint_reset C bp (env w) = (Returned tt, e1))
    (Hq1 : quota_int C q1 e1 = (Returned n1, e2))
    (Hq2 : quota_int C q2 e1 = (Returned n2, e2))
    (Hle : (n1 <= n2)%Z)
    (Hrun : assemble self bp q2 w = (Returned docs2, w2)) :
  exists w1,
    assemble self bp q1 w = (Returned (firstn (Z.to_nat n1) docs2), w1).
Proof.
  unfold assemble in *. unfold bind at 1 in Hrun. unfold bind at 1.
  unfold invoke at 1 in Hrun. unfold invoke at 1. rewrite Hreset in *.
  unfold bind at 1 in Hrun. unfold bind at 1.
  unfold invoke at 1 in Hrun. unfold invoke at 1.
  cbn [env] in *. rewrite Hq2 in Hrun. rewrite Hq1.
  destruct (range_split Hle) as [rest Hrange]. rewrite Hrange in Hrun.
  apply (collect_loop_split
           (fun _ : Z => blueprint_assemble C bp (presets self))
           (fun _ : Z => EvAssemble bp (presets self))) in Hrun
    as (wm & H1 & _).
  rewrite range_length in H1. replace (n1 - 0)%Z with n1 in H1 by lia.
  match goal with
  | H1 : for_each ?xs ?body ?acc ?wa = _ |- exists w1, for_each _ _ _ ?wb = _ =>
      destruct (collect_loop_env
                  (fun _ : Z => blueprint_assemble C bp (presets self))
                  (fun _ : Z => EvAssemble bp (presets self))
                  xs acc wb wa eq_refl) as [Hfst _];
      cbv zeta in Hfst; rewrite H1 in Hfst;
      exists (snd (for_each xs body acc wb));
      destruct (for_each xs body acc wb) as [r wz]; simpl in Hfst |- *;
      subst r; reflexivity
  end.
Qed.
End Runs.

(** X1 on the demo blueprint: three documents are finished in order. *)
Lemma finish_spec_witness :
  let run := finish Demo.factory tt [1; 2; 3] (Demo.world true) in
  fst run = Returned [101; 102; 103] /\
  exists r0 evs,
    trace (snd run) =
      trace (Demo.world true) ++
      EvReset (C:=Demo.collaborators) tt r0 :: evs /\
    (count (@is_reset Demo.collaborators) evs = 0 /\
     count (@is_storage Demo.collaborators) evs = 0 /\
     count (@is_assemble Demo.collaborators) evs = 0) /\
    match fst run with
    | Returned finished =>
        r0 = Returned tt /\
        length finished = 3 /\
        evs = finished_events Demo.factory tt [1; 2; 3] finished
    | Raised e => propagated e (trace (snd run))
    end.
Proof.
  split; [reflexivity|].
  exact (@finish_spec Demo.collaborators Demo.factory tt [1; 2; 3]
           (Demo.world true) _ _ eq_refl).
Defined.

(** X2 on a blueprint that cannot finish document 2: document 1 is
    finished, document 3 is never looked at. *)
Lemma finish_stops_at_first_failure_witness :
  let bp := {| Flaky.reset_fails := false; Flaky.assemble_fails_at := None;
               Flaky.finish_fails_on := Some 2 |} in
  let run := finish Flaky.factory bp [1; 2; 3] Flaky.world in
  (fst run = Raised "finish"%string /\
   trace (snd run) =
     [EvReset (C:=Flaky.collaborators) bp (Returned tt);
      EvFinish (C:=Flaky.collaborators) bp 1 [] (Returned 101);
      EvFinish (C:=Flaky.collaborators) bp 2 [] (Raised "finish"%string)]) /\
  (trace (snd run) =
     trace Flaky.world ++
     [EvReset (C:=Flaky.collaborators) bp (Raised "finish"%string)] \/
   exists out d,
     length out < 3 /\
     nth_error [1; 2; 3] (length out) = Some d /\
     trace (snd run) =
       trace Flaky.world ++
       EvReset (C:=Flaky.collaborators) bp (Returned tt) ::
       finished_events Flaky.factory bp (firstn (length out) [1; 2; 3]) out ++
       [EvFinish (C:=Flaky.collaborators) bp d (presets Flaky.factory)
          (Raised "finish"%string)]).
Proof.
  intros bp run. split; [split; reflexivity|].
  exact (@finish_stops_at_first_failure Flaky.collaborators Flaky.factory
           bp [1; 2; 3] Flaky.world "finish"%string (snd run) eq_refl).
Defined.

(** X3 on a blueprint whose third assemble call fails, asked for five
    documents. *)
Lemma assemble_stops_at_first_failure_witness :
  let bp := {| Flaky.reset_fails := false;
               Flaky.assemble_fails_at := Some 2;
               Flaky.finish_fails_on := None |} in
  let run := assemble Flaky.factory bp (Some 5%Z) Flaky.world in
  (fst run = Raised "assemble"%string /\
   count (@is_assemble Flaky.collaborators) (trace (snd run)) = 3) /\
  (trace (snd run) =
     trace Flaky.world ++
     [EvReset (C:=Flaky.collaborators) bp (Raised "assemble"%string)] \/
   trace (snd run) =
     trace Flaky.world ++
     [EvReset (C:=Flaky.collaborators) bp (Returned tt);
      EvInt (C:=Flaky.collaborators) (Some 5%Z) (Raised "assemble"%string)] \/
   exists n out,
     (Z.of_nat (length out) < n)%Z /\
     trace (snd run) =
       trace Flaky.world ++
       EvReset (C:=Flaky.collaborators) bp (Returned tt) ::
       EvInt (C:=Flaky.collaborators) (Some 5%Z) (Returned n) ::
       assembled_events Flaky.factory bp out ++
       [EvAssemble (C:=Flaky.collaborators) bp (presets Flaky.factory)
          (Raised "assemble"%string)]).
Proof.
  intros bp run. split; [split; reflexivity|].
  exact (@assemble_stops_at_first_failure Flaky.collaborators Flaky.factory
           bp (Some 5%Z) Flaky.world "assemble"%string (snd run) eq_refl).
Defined.

(** A quota [int()] rejects: the blueprint is reset, nothing is
    assembled. *)
Example assemble_rejected_quota :
  let run := assemble Flaky.factory Flaky.sound None Flaky.world in
  fst run = Raised "TypeError"%string /\
  trace (snd run) =
    [EvReset (C:=Flaky.collaborators) Flaky.sound (Returned tt);
     EvInt (C:=Flaky.collaborators) None (Raised "TypeError"%string)].
Proof. split; reflexivity. Qed.

(** X4 with the collection down: the run stops at [insert_many]. *)
Lemma populate_stops_at_first_failure_witness :
  let run := populate Demo.factory tt [1; 2] (Demo.world false) in
  let ens := EvEnsureFrames (C:=Demo.collaborators) tt in
  let pre := EvSend (C:=Demo.collaborators) "factory_insert" tt in
  let post := EvSend (C:=Demo.collaborators) "factory_inserted" tt in
  let ins := EvInsertMany (C:=Demo.collaborators) tt in
  (fst run = Raised "insert failed"%string /\
   exists t,
     trace (snd run) =
       t ++ [ens [101; 102] (Returned [101; 102]);
             pre [101; 102] (Returned tt);
             ins [101; 102] (Raised "insert failed"%string)]) /\
  exists rf w1 tail,
    finish Demo.factory tt [1; 2] (Demo.world false) = (rf, w1) /\
    trace (snd run) = trace w1 ++ tail /\
    match rf with
    | Raised e => fst run = Raised e /\ tail = []
    | Returned fin =>
        (exists e, fst run = Raised e /\ tail = [ens fin (Raised e)]) \/
        exists frames,
          (exists e,
             fst run = Raised e /\
             tail = [ens fin (Returned frames); pre frames (Raised e)]) \/
          (exists e,
             fst run = Raised e /\
             tail = [ens fin (Returned frames); pre frames (Returned tt);
                     ins frames (Raised e)]) \/
          exists inserted,
            (exists e,
               fst run = Raised e /\
               tail = [ens fin (Returned frames); pre frames (Returned tt);
                       ins frames (Returned inserted);
                       post inserted (Raised e)]) \/
            (fst run = Returned None /\
             tail = [ens fin (Returned frames); pre frames (Returned tt);
                     ins frames (Returned inserted);
                     post inserted (Returned tt)])
    end.
Proof.
  intros run ens pre post ins. split.
  - split; [reflexivity|]. eexists. vm_compute.
    instantiate (1 := [_; _; _]). reflexivity.
  - exact (@populate_stops_at_first_failure Demo.collaborators Demo.factory
             tt [1; 2] (Demo.world false) (fst run) (snd run) eq_refl).
Defined.

(** X5 on the demo collaborators: nothing to insert, everything called. *)
Lemma populate_empty_witness :
  let run := populate Demo.factory tt [] (Demo.world true) in
  fst run = Returned None /\
  count (@is_insert Demo.collaborators) (trace (snd run)) = 1 /\
  Demo.notified (env (snd run)) =
    ["factory_insert"; "factory_inserted"]%string.
Proof.
  destruct (@populate_empty Demo.collaborators Demo.factory tt
              (Demo.world true) _ _ _ _ _ _ _
              eq_refl eq_refl eq_refl eq_refl eq_refl) as [_ Hrun].
  cbv zeta in Hrun. cbv zeta. rewrite Hrun. repeat split.
Defined.

(** X6 on the demo blueprint with a quota of 3. *)
Lemma finish_after_assemble_witness :
  let w1 := snd (assemble Demo.factory tt 3%Z (Demo.world true)) in
  let w2 := snd (finish Demo.factory tt [0; 1; 2] w1) in
  count (@is_reset Demo.collaborators) (trace w2) = 2 /\
  exists n,
    Z.of_nat (length [100; 101; 102]) = Z.max 0 n /\
    length [100; 101; 102] = length [0; 1; 2] /\
    trace w2 =
      trace (Demo.world true) ++
      (EvReset (C:=Demo.collaborators) tt (Returned tt) ::
       EvInt (C:=Demo.collaborators) 3%Z (Returned n) ::
       assembled_events Demo.factory tt [0; 1; 2]) ++
      (EvReset (C:=Demo.collaborators) tt (Returned tt) ::
       finished_events Demo.factory tt [0; 1; 2] [100; 101; 102]).
Proof.
  intros w1 w2. split; [reflexivity|].
  assert (Hasm : assemble Demo.factory tt 3%Z (Demo.world true) =
                   (Returned [0; 1; 2], w1)) by reflexivity.
  assert (Hfin : finish Demo.factory tt [0; 1; 2] w1 =
                   (Returned [100; 101; 102], w2)) by reflexivity.
  exact (finish_after_assemble _ _ _ _ Hasm Hfin).
Defined.

(** X7 on the demo blueprint. *)
Lemma finish_prefix_witness :
  exists w1,
    finish Demo.factory tt [1; 2] (Demo.world true) =
      (Returned (firstn (length [1; 2]) [101; 102; 103]), w1).
Proof.
  exact (@finish_prefix Demo.collaborators Demo.factory tt [1; 2] [3]
           (Demo.world true) [101; 102; 103] _ eq_refl).
Defined.

(** X8 on the demo blueprint: a quota of 2 against a quota of 5. *)
Lemma assemble_prefix_witness :
  exists w1,
    assemble Demo.factory tt 2%Z (Demo.world true) =
      (Returned (firstn (Z.to_nat 2) [0; 1; 2; 3; 4]), w1).
Proof.
  assert (Hle : (2 <= 5)%Z) by lia.
  exact (@assemble_prefix Demo.collaborators Demo.factory tt 2%Z 5%Z
           (Demo.world true) _ 2%Z 5%Z _ [0; 1; 2; 3; 4] _
           eq_refl eq_refl eq_refl Hle eq_refl).
Defined.

End FactoryRuns.
